(** * A shallow embedding of the contact manager [HW1.py]

    The program keeps an address book (a Python [dict] from names to
    [Record] objects), validates phone numbers with a regular expression
    and birthdays with [datetime.strptime], pickles the whole book to a
    file after every change and answers a handful of commands.

    Conventions of the embedding:
    - a Python [str] is a [string]; its characters are the code points
      0..255, on which [\d] is [0-9] and [str.isspace] is the set written
      out in [isspace]. Text with a character above code point 255 (a digit
      of another script, say, which [\d] and [int] take as well) is outside
      the embedding: what is proved of a text is proved of the texts below
      code point 256;
    - a Python exception is a value of [exn]; code that may raise returns
      a [result];
    - the handlers mutate the book, the file system and the terminal: they
      live in the monad [M] over [world], in which a raised exception keeps
      the effects that happened before it, as in Python;
    - [pickle] is a library: its two functions are the operations of the
      class [Pickle];
    - whether the operating system lets a file be opened and written is
      not in the program: the class [Disk] says it. A statement that names
      no disk is about [reliable_disk], on which opening and writing always
      go through;
    - [strftime] prints a year below 1000 as the C library does: the
      class [Libc] says how;
    - the terminal takes every line that is printed, and [input] gives
      the next line or raises [EOFError] when there is none. *)

From Stdlib Require Import ZArith String Ascii List Lia Bool.
From Stdlib Require Import DecimalString.
From stdpp Require Import base option gmap strings.
Import ListNotations.

Local Open Scope string_scope.
Local Open Scope list_scope.
Local Open Scope Z_scope.

(** ** Exceptions *)

Inductive exn : Type :=
| FileNotFoundError
| EOFError
| UnpicklingError
| OverflowError (msg : string)
| OSError (msg : string)
| KeyError (msg : string)
| IndexError (msg : string)
| ValueError (msg : string).

Inductive result (A : Type) : Type :=
| Ok (a : A)
| Raise (e : exn).
Arguments Ok {A} a.
Arguments Raise {A} e.

Definition is_Ok {A} (r : result A) : bool :=
  match r with Ok _ => true | Raise _ => false end.

(** ** Characters and strings *)

Definition ord (c : ascii) : Z := Z.of_N (N_of_ascii c).

(** [str.isspace] on the code points below 256. *)
Definition isspace (c : ascii) : bool :=
  let n := ord c in
  ((9 <=? n) && (n <=? 13)) || ((28 <=? n) && (n <=? 32))
  || (n =? 133) || (n =? 160).

(** The class [\d] on the code points below 256: the ten digits [0-9] of
    ASCII. *)
Definition isdigit (c : ascii) : bool :=
  let n := ord c in (48 <=? n) && (n <=? 57).

Definition in_range (lo hi c : ascii) : bool :=
  (ord lo <=? ord c) && (ord c <=? ord hi).

Definition digit_val (c : ascii) : Z := ord c - 48.

Definition digit_char (n : Z) : ascii := ascii_of_N (Z.to_N (n + 48)).

(** [str(n)] for an integer. *)
Definition str_of_Z (n : Z) : string := NilZero.string_of_int (Z.to_int n).

(** [s.split()]: the maximal runs of non-blank characters, in order.
    [cur] is the run being read. *)
Fixpoint split_go (cur : string) (s : string) : list string :=
  match s with
  | EmptyString => if String.eqb cur "" then [] else [cur]
  | String c s' =>
      if isspace c
      then (if String.eqb cur "" then split_go "" s' else cur :: split_go "" s')
      else split_go (cur +:+ String c "") s'
  end.

Definition split (s : string) : list string := split_go "" s.

Fixpoint lstrip (s : string) : string :=
  match s with
  | EmptyString => ""
  | String c s' => if isspace c then lstrip s' else s
  end.

Fixpoint rstrip (s : string) : string :=
  match s with
  | EmptyString => ""
  | String c s' =>
      match rstrip s' with
      | EmptyString => if isspace c then "" else String c ""
      | t => String c t
      end
  end.

(** [s.strip()] *)
Definition strip (s : string) : string := rstrip (lstrip s).

(** No character of [s] is blank. *)
Fixpoint no_blank (s : string) : bool :=
  match s with
  | EmptyString => true
  | String c s' => negb (isspace c) && no_blank s'
  end.

(** [sep.join(l)] *)
Fixpoint join (sep : string) (l : list string) : string :=
  match l with
  | [] => ""
  | [x] => x
  | x :: rest => x +:+ sep +:+ join sep rest
  end.

(** The first [n] characters when they are all digits, with what follows
    them: the regular expression [\d{n}] at the head of [s]. *)
Fixpoint take_digits (n : nat) (s : string) : option (string * string) :=
  match n with
  | O => Some ("", s)
  | S n' =>
      match s with
      | String c s' =>
          if isdigit c
          then match take_digits n' s' with
               | Some (t, r) => Some (String c t, r)
               | None => None
               end
          else None
      | EmptyString => None
      end
  end.

(** ** Phone numbers *)

(** [PHONE_PATTERN.match(phone)] for [PHONE_PATTERN = ^\+?\d{10}$]: an
    optional plus sign, ten digits, and then the end of the string; [$]
    also accepts one final line feed. The plus sign is no digit, so giving
    it back never helps the match. *)
Definition PHONE_PATTERN_match (phone : string) : bool :=
  let body := match phone with
              | String "+" r => r
              | _ => phone
              end in
  match take_digits 10 body with
  | Some (_, r) => String.eqb r "" || String.eqb r (String "010" "")
  | None => false
  end.

(** ** Calendar dates *)

(** [datetime.date]: a year in [MINYEAR..MAXYEAR], a month and a day. *)
Record date : Type := mkdate { year : Z; month : Z; day : Z }.

Definition MINYEAR : Z := 1.
Definition MAXYEAR : Z := 9999.

Definition is_leap (y : Z) : bool :=
  (y mod 4 =? 0) && (negb (y mod 100 =? 0) || (y mod 400 =? 0)).

Definition days_in_month (y m : Z) : Z :=
  if m =? 2 then (if is_leap y then 29 else 28)
  else if (m =? 4) || (m =? 6) || (m =? 9) || (m =? 11) then 30
  else 31.

(** The constructor [date(y, m, d)], which checks its three arguments. *)
Definition date_new (y m d : Z) : result date :=
  if negb ((MINYEAR <=? y) && (y <=? MAXYEAR))
  then Raise (ValueError ("year " +:+ str_of_Z y +:+ " is out of range"))
  else if negb ((1 <=? m) && (m <=? 12))
  then Raise (ValueError "month must be in 1..12")
  else if negb ((1 <=? d) && (d <=? days_in_month y m))
  then Raise (ValueError "day is out of range for month")
  else Ok (mkdate y m d).

Definition valid_date (d : date) : bool :=
  is_Ok (date_new (year d) (month d) (day d)).

(** [birthday.replace(year=y)] builds a new date, so it checks it. *)
Definition date_replace_year (d : date) (y : Z) : result date :=
  date_new y (month d) (day d).

(** Dates compare as the triples (year, month, day). *)
Definition date_compare (a b : date) : comparison :=
  match year a ?= year b with
  | Eq => match month a ?= month b with
          | Eq => day a ?= day b
          | c => c
          end
  | c => c
  end.

Definition date_leb (a b : date) : bool :=
  match date_compare a b with Gt => false | _ => true end.

Definition date_ltb (a b : date) : bool :=
  match date_compare a b with Lt => true | _ => false end.

(** The day after [d]; there is none after 31 December 9999. *)
Definition next_day (d : date) : result date :=
  if day d <? days_in_month (year d) (month d)
  then Ok (mkdate (year d) (month d) (day d + 1))
  else if month d <? 12
  then Ok (mkdate (year d) (month d + 1) 1)
  else if year d <? MAXYEAR
  then Ok (mkdate (year d + 1) 1 1)
  else Raise (OverflowError "date value out of range").

(** [d + timedelta(days=n)] for [n >= 0]. *)
Fixpoint add_days (n : nat) (d : date) : result date :=
  match n with
  | O => Ok d
  | S n' =>
      match next_day d with
      | Ok d' => add_days n' d'
      | Raise e => Raise e
      end
  end.

(** *** Parsing: [datetime.strptime(value, "%d-%m-%Y")]

    [_strptime] turns the format into the regular expression
    [(?P<d>3[0-1]|[1-2]\d|0[1-9]|[1-9]| [1-9])-(?P<m>1[0-2]|0[1-9]|[1-9])-(?P<Y>\d\d\d\d)]
    and matches it at the start of the text. Each directive below gives
    the texts its group can take at the head of [s], in the order in which
    the alternatives are tried, each with the rest of [s]. *)

Definition str1 (a : ascii) : string := String a "".
Definition str2 (a b : ascii) : string := String a (String b "").

Definition re_d (s : string) : list (string * string) :=
  match s with
  | String a (String b r) =>
      (if Ascii.eqb a "3" && in_range "0" "1" b then [(str2 a b, r)] else [])
      ++ (if in_range "1" "2" a && isdigit b then [(str2 a b, r)] else [])
      ++ (if Ascii.eqb a "0" && in_range "1" "9" b then [(str2 a b, r)] else [])
      ++ (if in_range "1" "9" a then [(str1 a, String b r)] else [])
      ++ (if Ascii.eqb a " " && in_range "1" "9" b then [(str2 a b, r)] else [])
  | String a EmptyString => if in_range "1" "9" a then [(str1 a, "")] else []
  | EmptyString => []
  end.

Definition re_m (s : string) : list (string * string) :=
  match s with
  | String a (String b r) =>
      (if Ascii.eqb a "1" && in_range "0" "2" b then [(str2 a b, r)] else [])
      ++ (if Ascii.eqb a "0" && in_range "1" "9" b then [(str2 a b, r)] else [])
      ++ (if in_range "1" "9" a then [(str1 a, String b r)] else [])
  | String a EmptyString => if in_range "1" "9" a then [(str1 a, "")] else []
  | EmptyString => []
  end.

Definition re_Y (s : string) : list (string * string) :=
  match take_digits 4 s with
  | Some p => [p]
  | None => []
  end.

(** A literal character of the pattern. *)
Definition re_lit (c : ascii) (s : string) : list string :=
  match s with
  | String a r => if Ascii.eqb a c then [r] else []
  | EmptyString => []
  end.

(** The ways the whole expression matches at the start of [s], in the
    order in which the engine finds them: the three groups and the text
    left over. [re.match] returns the first. *)
Definition re_dmY (s : string) : list (string * string * string * string) :=
  '(d, r1) ← re_d s;
  r2 ← re_lit "-" r1;
  '(m, r3) ← re_m r2;
  r4 ← re_lit "-" r3;
  '(y, r5) ← re_Y r4;
  [(d, m, y, r5)].

Definition int_of_digits (s : string) : Z :=
  fold_left (fun acc c => 10 * acc + digit_val c) (list_ascii_of_string s) 0.

(** [int(s)] on the text of a group: blanks around the digits are
    dropped. *)
Definition int (s : string) : Z := int_of_digits (strip s).

Definition strptime (s : string) : result date :=
  match re_dmY s with
  | [] => Raise (ValueError ("time data '" +:+ s
                            +:+ "' does not match format '%d-%m-%Y'"))
  | (d, m, y, rest) :: _ =>
      if negb (String.eqb rest "")
      then Raise (ValueError ("unconverted data remains: " +:+ rest))
      else date_new (int y) (int m) (int d)
  end.

(** *** Formatting: [d.strftime('%d-%m-%Y')]

    Day and month are printed with two digits. [%Y] is the year as the
    C library prints it: four digits from 1000 on; below 1000 some
    libraries fill with zeros and others (glibc) print the number as it
    is. [pads_year] says which. *)
Class Libc : Type := { pads_year : bool }.

Definition pad2 (n : Z) : string :=
  str2 (digit_char (n / 10)) (digit_char (n mod 10)).

Definition pad4 (n : Z) : string :=
  String (digit_char (n / 1000))
    (String (digit_char (n / 100 mod 10)) (pad2 (n mod 100))).

(** A number from 0 to 999 in decimal, without leading zeros. *)
Definition decimal_small (n : Z) : string :=
  if n <? 10 then str1 (digit_char n)
  else if n <? 100 then pad2 n
  else String (digit_char (n / 100)) (pad2 (n mod 100)).

Definition strftime_Y {L : Libc} (y : Z) : string :=
  if pads_year || (1000 <=? y) then pad4 y else decimal_small y.

Definition strftime {L : Libc} (d : date) : string :=
  pad2 (day d) +:+ "-" +:+ pad2 (month d) +:+ "-" +:+ strftime_Y (year d).

(** ** Records and the address book *)

(** [class Birthday(Field)]: the constructor keeps the parsed date as its
    [value] and turns every parse error into one message. *)
Definition Birthday (value : string) : result date :=
  match strptime value with
  | Ok d => Ok d
  | Raise (ValueError _) => Raise (ValueError "Invalid date format. Use DD-MM-YYYY")
  | Raise e => Raise e
  end.

(** [class Record]: [name] is the value of the [Name] field. *)
Record Record_ : Type := mkRecord {
  name : string;
  phones : list string;
  birthday : option date
}.

(** [Record(name)] *)
Definition Record_init (n : string) : Record_ :=
  {| name := n; phones := []; birthday := None |}.

(** [record.add_phone(phone)] *)
Definition Record_add_phone (phone : string) (r : Record_) : result Record_ :=
  if negb (PHONE_PATTERN_match phone)
  then Raise (ValueError "Invalid phone number format.")
  else Ok {| name := name r; phones := phones r ++ [phone]; birthday := birthday r |}.

(** [record.add_birthday(birthday_str)] *)
Definition Record_add_birthday (birthday_str : string) (r : Record_) : result Record_ :=
  match Birthday birthday_str with
  | Ok d => Ok {| name := name r; phones := phones r; birthday := Some d |}
  | Raise e => Raise e
  end.

(** [record.phones = [new_phone_number]] *)
Definition set_phones (new_phones : list string) (r : Record_) : result Record_ :=
  Ok {| name := name r; phones := new_phones; birthday := birthday r |}.

(** [class AddressBook(dict)]: a dictionary keeps its keys in the order in
    which they were first inserted, which is the order [values()] goes
    through; so the book is the list of its items. *)
Module AddressBook.

Definition t : Type := list (string * Record_).

(** [AddressBook()] *)
Definition empty : t := [].

(** [self.get(key)] *)
Fixpoint get (key : string) (book : t) : option Record_ :=
  match book with
  | [] => None
  | (k, r) :: rest => if String.eqb k key then Some r else get key rest
  end.

(** [self[key] = r]: a present key keeps its place, a new key goes to
    the end. *)
Fixpoint setitem (key : string) (r : Record_) (book : t) : t :=
  match book with
  | [] => [(key, r)]
  | (k, r0) :: rest =>
      if String.eqb k key then (k, r) :: rest
      else (k, r0) :: setitem key r rest
  end.

Definition add_record (record : Record_) (book : t) : t :=
  setitem (name record) record book.

Definition find (n : string) (book : t) : option Record_ := get n book.

Definition values (book : t) : list Record_ := map snd book.

Definition keys (book : t) : list string := map fst book.

End AddressBook.

(** ** The world the handlers act on *)

Record world : Type := mkWorld {
  w_book : AddressBook.t;               (* the object [book] of [main] *)
  w_fs : gmap string (list Byte.byte);  (* the files, by name *)
  w_out : list string;                  (* the lines printed so far *)
  w_today : date                        (* what [datetime.today().date()] gives *)
}.

Definition M (A : Type) : Type := world -> result A * world.

Definition ret {A} (a : A) : M A := fun w => (Ok a, w).

Definition raise {A} (e : exn) : M A := fun w => (Raise e, w).

Definition bind {A B} (m : M A) (k : A -> M B) : M B :=
  fun w => match m w with
           | (Ok a, w') => k a w'
           | (Raise e, w') => (Raise e, w')
           end.

Notation "x <- m ;; k" := (bind m (fun x => k))
  (at level 100, m at next level, right associativity).
Notation "m ;; k" := (bind m (fun _ => k))
  (at level 100, right associativity).

(** [try: m except ...: handler] *)
Definition try_except {A} (m : M A) (handler : exn -> M A) : M A :=
  fun w => match m w with
           | (Ok a, w') => (Ok a, w')
           | (Raise e, w') => handler e w'
           end.

Definition lift {A} (r : result A) : M A := fun w => (r, w).

Definition get_book : M AddressBook.t := fun w => (Ok (w_book w), w).

Definition put_book (b : AddressBook.t) : M unit :=
  fun w => (Ok tt, {| w_book := b; w_fs := w_fs w; w_out := w_out w; w_today := w_today w |}).

Definition today : M date := fun w => (Ok (w_today w), w).

Definition print (line : string) : M unit :=
  fun w => (Ok tt, {| w_book := w_book w; w_fs := w_fs w;
                      w_out := w_out w ++ [line]; w_today := w_today w |}).

(** What becomes of an attempt to replace a file: it is written; or it
    cannot be opened ([PermissionError], [IsADirectoryError], ...) and
    stays as it was; or it is opened, which empties it, and writing stops
    after [kept] bytes (a full disk). The last two raise an [OSError]. *)
Inductive write_result : Type :=
| Written
| OpenFailed (msg : string)
| WriteFailed (msg : string) (kept : nat).

(** The part of the operating system that the program meets: the error,
    if any, of opening a file for reading (other than the file not being
    there), and what becomes of writing given bytes to a file. *)
Class Disk : Type := {
  open_read_error : string -> option string;
  write_outcome : string -> list Byte.byte -> write_result
}.

(** [open(filename, "rb")] and reading the file to its end. *)
Definition read_file {D : Disk} (filename : string) : M (list Byte.byte) :=
  fun w => match open_read_error filename with
           | Some msg => (Raise (OSError msg), w)
           | None =>
               match w_fs w !! filename with
               | Some content => (Ok content, w)
               | None => (Raise FileNotFoundError, w)
               end
           end.

(** The world in which the file [filename] holds [content]. *)
Definition with_file (filename : string) (content : list Byte.byte) (w : world) : world :=
  {| w_book := w_book w; w_fs := <[filename := content]> (w_fs w);
     w_out := w_out w; w_today := w_today w |}.

(** [open(filename, "wb")] and writing [content]: the file is replaced. *)
Definition write_file {D : Disk} (filename : string) (content : list Byte.byte) : M unit :=
  fun w => match write_outcome filename content with
           | Written => (Ok tt, with_file filename content w)
           | OpenFailed msg => (Raise (OSError msg), w)
           | WriteFailed msg kept =>
               (Raise (OSError msg), with_file filename (take kept content) w)
           end.

(** A method call on the record object that the book holds under [key];
    the object is changed in place, so the book sees the change. *)
Definition on_record (key : string) (method : Record_ -> result Record_) : M unit :=
  book <- get_book ;;
  match AddressBook.get key book with
  | Some r =>
      r' <- lift (method r) ;;
      put_book (AddressBook.setitem key r' book)
  | None => ret tt
  end.

(** ** Persistence *)

(** [pickle.dumps] and [pickle.loads] on address books. *)
Class Pickle : Type := {
  pickle_dumps : AddressBook.t -> list Byte.byte;
  pickle_loads : list Byte.byte -> result AddressBook.t
}.

(** What [pickle] promises: loading what was dumped gives an equal value. *)
Definition pickle_roundtrip (P : Pickle) : Prop :=
  forall book, pickle_loads (pickle_dumps book) = Ok book.

Definition default_filename : string := "addressbook.pkl".

Section Program.

Context {P : Pickle} {D : Disk} {L : Libc}.

Definition load_data (filename : string) : M AddressBook.t :=
  try_except
    (content <- read_file filename ;; lift (pickle_loads content))
    (fun e => match e with
              | FileNotFoundError => ret AddressBook.empty
              | _ => raise e
              end).

Definition save_data (book : AddressBook.t) (filename : string) : M unit :=
  write_file filename (pickle_dumps book).

(** ** Command handlers *)

(** The decorator [input_error]. The handlers return a string; the
    birthday listing returns [None], so [of_str] says how a message is a
    value of the wrapped function's return type. *)
Definition input_error {A} (of_str : string -> A) (func : M A) : M A :=
  try_except func
    (fun e => match e with
              | ValueError msg =>
                  if existsb (String.eqb msg)
                       ["Enter name and phone please"; "Invalid phone number format."]
                  then ret (of_str msg)
                  else ret (of_str msg)
              | KeyError _ => ret (of_str "Enter name!")
              | IndexError _ => ret (of_str "Enter name and phone number!")
              | _ => raise e
              end).

(** [a, b, *_ = l] *)
Definition unpack2 (l : list string) : result (string * string) :=
  match l with
  | a :: b :: _ => Ok (a, b)
  | _ => Raise (ValueError ("not enough values to unpack (expected at least 2, got "
                            +:+ str_of_Z (Z.of_nat (length l)) +:+ ")"))
  end.

Definition add_contact (args : string) : M string :=
  input_error id (
    if (length (split args) <? 2)%nat
    then raise (ValueError "Enter name and phone please")
    else
      items <- lift (unpack2 (split args)) ;;
      let '(name, phone) := items in
      if negb (PHONE_PATTERN_match phone)
      then raise (ValueError "Invalid phone number format.")
      else
        book <- get_book ;;
        message <-
          match AddressBook.find name book with
          | None =>
              put_book (AddressBook.add_record (Record_init name) book) ;;
              ret "Contact added."
          | Some _ => ret "Contact updated."
          end ;;
        on_record name (Record_add_phone phone) ;;
        book <- get_book ;;
        save_data book default_filename ;;
        ret message).

Definition change_contact (user_input : string) : M string :=
  input_error id (
    if (length (split user_input) <? 2)%nat
    then raise (ValueError "Enter name and phone please")
    else
      items <- lift (unpack2 (split user_input)) ;;
      let '(name, new_phone_number) := items in
      if negb (PHONE_PATTERN_match new_phone_number)
      then raise (ValueError "Invalid phone number format.")
      else
        book <- get_book ;;
        match AddressBook.find name book with
        | Some _ =>
            on_record name (set_phones [new_phone_number]) ;;
            book <- get_book ;;
            save_data book default_filename ;;
            ret "Contact updated!."
        | None => ret "Contact not found!."
        end).

Definition show_phone (user_input : string) : M string :=
  input_error id (
    let name := strip user_input in
    book <- get_book ;;
    match AddressBook.find name book with
    | Some record => ret (join ", " (phones record))
    | None => ret "Contact not found!."
    end).

Definition add_birthday (user_input : string) : M string :=
  input_error id (
    items <- lift (unpack2 (split user_input)) ;;
    let '(name, birthday_str) := items in
    book <- get_book ;;
    match AddressBook.find name book with
    | Some _ =>
        on_record name (Record_add_birthday birthday_str) ;;
        book <- get_book ;;
        save_data book default_filename ;;
        ret "Birthday added!."
    | None => ret "Contact not found!."
    end).

Definition show_birthday (user_input : string) : M string :=
  input_error id (
    let name := strip user_input in
    book <- get_book ;;
    match AddressBook.find name book with
    | Some record =>
        match birthday record with
        | Some b => ret (strftime b)
        | None => ret "No birthday set!."
        end
    | None => ret "Contact not found!."
    end).

(** The loop of [show_upcoming_birthdays] over [book.values()];
    [upcoming_birthdays] is the list built so far. *)
Fixpoint upcoming_loop (today next_week : date) (records : list Record_)
    (upcoming_birthdays : list (string * date)) : result (list (string * date)) :=
  match records with
  | [] => Ok upcoming_birthdays
  | record :: rest =>
      match birthday record with
      | Some b =>
          match date_replace_year b (year today) with
          | Ok this_year_birthday =>
              if date_leb today this_year_birthday
                 && date_leb this_year_birthday next_week
              then upcoming_loop today next_week rest
                     (upcoming_birthdays ++ [(name record, this_year_birthday)])
              else upcoming_loop today next_week rest upcoming_birthdays
          | Raise e => Raise e
          end
      | None => upcoming_loop today next_week rest upcoming_birthdays
      end
  end.

Fixpoint print_all (lines : list string) : M unit :=
  match lines with
  | [] => ret tt
  | l :: rest => print l ;; print_all rest
  end.

Definition birthday_line (entry : string * date) : string :=
  fst entry +:+ ": " +:+ strftime (snd entry).

Definition show_upcoming_birthdays : M (option string) :=
  input_error Some (
    today <- today ;;
    next_week <- lift (add_days 7 today) ;;
    book <- get_book ;;
    upcoming_birthdays <-
      lift (upcoming_loop today next_week (AddressBook.values book) []) ;;
    match upcoming_birthdays with
    | [] => print "No upcoming birthdays!." ;; ret None
    | _ => print_all (map birthday_line upcoming_birthdays) ;; ret None
    end).

Definition contact_line (record : Record_) : string :=
  name record +:+ ": Phones: " +:+ join ", " (phones record) +:+ ", Birthday: "
  +:+ match birthday record with
     | Some b => strftime b
     | None => "No birthday set"
     end.

Definition show_all : M unit :=
  book <- get_book ;;
  match book with
  | [] => print "No contacts!."
  | _ => print_all (map contact_line (AddressBook.values book))
  end.

(** ** One turn of the loop of [main] *)

(** The first blank-free run of [s] and what follows it. *)
Fixpoint span_word (s : string) : string * string :=
  match s with
  | EmptyString => ("", "")
  | String c s' =>
      if isspace c then ("", s)
      else let '(w, r) := span_word s' in (String c w, r)
  end.

(** [s.split(maxsplit=1)] *)
Definition split_max1 (s : string) : list string :=
  let '(w, r) := span_word (lstrip s) in
  if String.eqb w "" then []
  else match lstrip r with
       | EmptyString => [w]
       | r' => [w; r']
       end.

(** One line of input; the result tells whether the loop goes on. The
    strings the handlers return are printed, what
    [show_upcoming_birthdays] returns is dropped. *)
Definition main_step (user_input : string) : M bool :=
  if String.eqb (strip user_input) ""
  then print "Empty input. Please enter a command." ;; ret true
  else
    match split_max1 user_input with
    | [] => raise (ValueError "not enough values to unpack (expected at least 1, got 0)")
    | command :: rest =>
        let args := join " " rest in
        if existsb (String.eqb command) ["close"; "exit"]
        then print "Good bye!" ;; ret false
        else if String.eqb command "hello"
        then print "How can I help you?" ;; ret true
        else if String.eqb command "add"
        then (r <- add_contact args ;; print r ;; ret true)
        else if String.eqb command "change"
        then (r <- change_contact args ;; print r ;; ret true)
        else if String.eqb command "phone"
        then (r <- show_phone args ;; print r ;; ret true)
        else if String.eqb command "all"
        then show_all ;; ret true
        else if String.eqb command "add-birthday"
        then (r <- add_birthday args ;; print r ;; ret true)
        else if String.eqb command "show-birthday"
        then (r <- show_birthday args ;; print r ;; ret true)
        else if String.eqb command "birthdays"
        then show_upcoming_birthdays ;; ret true
        else print "Invalid command." ;; ret true
    end.

End Program.

(** ** The loop of [main] *)

Section Main.

Context {P : Pickle} {D : Disk} {L : Libc}.

(** [while True: user_input = input("Enter a command: ") ...] on the
    lines that standard input still holds. [input] writes its prompt,
    which [w_out] takes as one more entry, and raises [EOFError] when no
    line is left. *)
Fixpoint main_loop (inputs : list string) : M unit :=
  print "Enter a command: " ;;
  match inputs with
  | [] => raise EOFError
  | user_input :: rest =>
      continue <- main_step user_input ;;
      if continue then main_loop rest else ret tt
  end.

(** [main()]: [book] becomes the object the handlers work on. *)
Definition main (inputs : list string) : M unit :=
  book <- load_data default_filename ;;
  put_book book ;;
  print "Welcome to the assistant bot!" ;;
  main_loop inputs.

End Main.

(** ** Disks *)

(** The disk on which every file can be opened and written. Where a
    statement names no disk, the program runs on this one. *)
#[global] Instance reliable_disk : Disk :=
  {| open_read_error := fun _ => None; write_outcome := fun _ _ => Written |}.



(** A disk that is full: the file is opened, which empties it, and
    nothing is written. *)
Definition full_disk : Disk :=
  {| open_read_error := fun _ => None;
     write_outcome := fun _ _ => WriteFailed "[Errno 28] No space left on device" 0 |}.


(** Whatever is written to [filename] is written. *)
Definition writable (D : Disk) (filename : string) : Prop :=
  forall content, write_outcome filename content = Written.

(** ** A pickle

    One byte format with the two operations of [Pickle], used to run the
    program on concrete files: numbers in unary, every string and list
    after its length. Like [pickle.load], [loads] raises [EOFError] on an
    empty file and [UnpicklingError] on bytes it cannot read. *)
Module Codec.

Import Byte.

Definition parser (A : Type) : Type := list byte -> option (A * list byte).

Definition enc_nat (n : nat) : list byte := repeat x01 n ++ [x00].

Fixpoint dec_nat (bs : list byte) : option (nat * list byte) :=
  match bs with
  | x00 :: r => Some (O, r)
  | x01 :: r =>
      match dec_nat r with
      | Some (n, r') => Some (S n, r')
      | None => None
      end
  | _ => None
  end.

Definition enc_Z (z : Z) : list byte :=
  (if z <? 0 then x01 else x00) :: enc_nat (Z.abs_nat z).

Definition dec_Z : parser Z := fun bs =>
  match bs with
  | x00 :: r =>
      match dec_nat r with
      | Some (n, r') => Some (Z.of_nat n, r')
      | None => None
      end
  | x01 :: r =>
      match dec_nat r with
      | Some (n, r') => Some (- Z.of_nat n, r')
      | None => None
      end
  | _ => None
  end.

Fixpoint enc_chars (s : string) : list byte :=
  match s with
  | EmptyString => []
  | String c s' => byte_of_ascii c :: enc_chars s'
  end.

Fixpoint dec_chars (n : nat) (bs : list byte) : option (string * list byte) :=
  match n with
  | O => Some ("", bs)
  | S n' =>
      match bs with
      | b :: r =>
          match dec_chars n' r with
          | Some (s, r') => Some (String (ascii_of_byte b) s, r')
          | None => None
          end
      | [] => None
      end
  end.

Definition enc_string (s : string) : list byte :=
  enc_nat (String.length s) ++ enc_chars s.

Definition dec_string : parser string := fun bs =>
  match dec_nat bs with
  | Some (n, r) => dec_chars n r
  | None => None
  end.

Fixpoint enc_items {A} (enc : A -> list byte) (l : list A) : list byte :=
  match l with
  | [] => []
  | a :: l' => enc a ++ enc_items enc l'
  end.

Fixpoint dec_items {A} (dec : parser A) (n : nat) (bs : list byte)
    : option (list A * list byte) :=
  match n with
  | O => Some ([], bs)
  | S n' =>
      match dec bs with
      | Some (a, r) =>
          match dec_items dec n' r with
          | Some (l, r') => Some (a :: l, r')
          | None => None
          end
      | None => None
      end
  end.

Definition enc_list {A} (enc : A -> list byte) (l : list A) : list byte :=
  enc_nat (length l) ++ enc_items enc l.

Definition dec_list {A} (dec : parser A) : parser (list A) := fun bs =>
  match dec_nat bs with
  | Some (n, r) => dec_items dec n r
  | None => None
  end.

Definition enc_date (d : date) : list byte :=
  enc_Z (year d) ++ enc_Z (month d) ++ enc_Z (day d).

Definition dec_date : parser date := fun bs =>
  match dec_Z bs with
  | Some (y, r1) =>
      match dec_Z r1 with
      | Some (m, r2) =>
          match dec_Z r2 with
          | Some (d, r3) => Some (mkdate y m d, r3)
          | None => None
          end
      | None => None
      end
  | None => None
  end.

Definition enc_birthday (b : option date) : list byte :=
  match b with
  | None => [x00]
  | Some d => x01 :: enc_date d
  end.

Definition dec_birthday : parser (option date) := fun bs =>
  match bs with
  | x00 :: r => Some (None, r)
  | x01 :: r =>
      match dec_date r with
      | Some (d, r') => Some (Some d, r')
      | None => None
      end
  | _ => None
  end.

Definition enc_record (r : Record_) : list byte :=
  enc_string (name r) ++ enc_list enc_string (phones r) ++ enc_birthday (birthday r).

Definition dec_record : parser Record_ := fun bs =>
  match dec_string bs with
  | Some (n, r1) =>
      match dec_list dec_string r1 with
      | Some (ps, r2) =>
          match dec_birthday r2 with
          | Some (b, r3) => Some (mkRecord n ps b, r3)
          | None => None
          end
      | None => None
      end
  | None => None
  end.

Definition enc_item (kv : string * Record_) : list byte :=
  enc_string (fst kv) ++ enc_record (snd kv).

Definition dec_item : parser (string * Record_) := fun bs =>
  match dec_string bs with
  | Some (k, r1) =>
      match dec_record r1 with
      | Some (r, r2) => Some ((k, r), r2)
      | None => None
      end
  | None => None
  end.

Definition dumps (book : AddressBook.t) : list byte := enc_list enc_item book.

Definition loads (bs : list byte) : result AddressBook.t :=
  match bs with
  | [] => Raise EOFError
  | _ =>
      match dec_list dec_item bs with
      | Some (book, []) => Ok book
      | _ => Raise UnpicklingError
      end
  end.

Definition pickle : Pickle := {| pickle_dumps := dumps; pickle_loads := loads |}.

End Codec.

(** ** Vocabulary of the statements *)

(** The entry of a record in the list of [show_upcoming_birthdays], when
    it has one: its birthday moved to the year of [today], if that falls
    on [today], on [next_week] or between them. *)
Definition this_year_entry (today next_week : date) (r : Record_)
    : option (string * date) :=
  match birthday r with
  | Some b =>
      match date_replace_year b (year today) with
      | Ok d =>
          if date_leb today d && date_leb d next_week
          then Some (name r, d) else None
      | Raise _ => None
      end
  | None => None
  end.

(** The record has no birthday, or one that exists in year [y]. *)
Definition replaceable (y : Z) (r : Record_) : bool :=
  match birthday r with
  | Some b => is_Ok (date_replace_year b y)
  | None => true
  end.

(** The world after [lines] were printed. *)
Definition printing (lines : list string) (w : world) : world :=
  {| w_book := w_book w; w_fs := w_fs w; w_out := w_out w ++ lines;
     w_today := w_today w |}.

(** What [input_error] makes of an exception. *)
Definition answer_to {A} (of_str : string -> A) (e : exn) : result A :=
  match e with
  | ValueError msg => Ok (of_str msg)
  | KeyError _ => Ok (of_str "Enter name!")
  | IndexError _ => Ok (of_str "Enter name and phone number!")
  | _ => Raise e
  end.

(** The world in which [book] is the book. *)
Definition with_book (book : AddressBook.t) (w : world) : world :=
  {| w_book := book; w_fs := w_fs w; w_out := w_out w; w_today := w_today w |}.

(** The world after [book] became the book and was saved. *)
Definition saved {P : Pickle} (book : AddressBook.t) (w : world) : world :=
  {| w_book := book;
     w_fs := <[default_filename := pickle_dumps book]> (w_fs w);
     w_out := w_out w; w_today := w_today w |}.

Definition with_phones (ps : list string) (r : Record_) : Record_ :=
  {| name := name r; phones := ps; birthday := birthday r |}.

Definition with_birthday (d : date) (r : Record_) : Record_ :=
  {| name := name r; phones := phones r; birthday := Some d |}.

(** The record under [n], or the fresh record [add] makes for [n]. *)
Definition record_or_new (n : string) (book : AddressBook.t) : Record_ :=
  match AddressBook.get n book with
  | Some r => r
  | None => Record_init n
  end.

(** What one command can make of the book. *)
Inductive book_step (book : AddressBook.t) : AddressBook.t -> Prop :=
| step_add n p :
    no_blank n = true -> n <> "" -> PHONE_PATTERN_match p = true ->
    book_step book
      (AddressBook.setitem n
         (with_phones (phones (record_or_new n book) ++ [p]) (record_or_new n book))
         book)
| step_change n p r :
    AddressBook.get n book = Some r -> PHONE_PATTERN_match p = true ->
    book_step book (AddressBook.setitem n (with_phones [p] r) book)
| step_birthday n s d r :
    AddressBook.get n book = Some r -> Birthday s = Ok d ->
    book_step book (AddressBook.setitem n (with_birthday d r) book).

(** [Q] holds of every item of the book. *)
Definition book_all (Q : string -> Record_ -> Prop) (book : AddressBook.t) : Prop :=
  forall k r, In (k, r) book -> Q k r.

(** The book is a dictionary, every record is under its own name, and
    every name is one word. *)
Definition wf_book (book : AddressBook.t) : Prop :=
  NoDup (AddressBook.keys book)
  /\ book_all (fun k r => name r = k /\ no_blank k = true /\ k <> "") book.

Definition phones_valid (book : AddressBook.t) : Prop :=
  book_all (fun _ r => forall p, In p (phones r) -> PHONE_PATTERN_match p = true) book.

Definition birthdays_valid (book : AddressBook.t) : Prop :=
  book_all (fun _ r => forall d, birthday r = Some d -> valid_date d = true) book.

(** The address book file is there and loads as the book in memory. *)
Definition synced {P : Pickle} (w : world) : Prop :=
  load_data default_filename w = (Ok (w_book w), w).

Fixpoint all_digits (s : string) : bool :=
  match s with
  | EmptyString => true
  | String c s' => isdigit c && all_digits s'
  end.

(** Every character of [s] is an ASCII character. *)
Fixpoint ascii_only (s : string) : bool :=
  match s with
  | EmptyString => true
  | String c s' => (ord c <? 128) && ascii_only s'
  end.

(** [s] is written [DD-MM-YYYY] with the digits [0-9] of ASCII: two
    digits, a hyphen, two digits, a hyphen, four digits. *)
Definition ddmmyyyy (s : string) : bool :=
  match s with
  | String d1 (String d2 (String h1 (String m1 (String m2 (String h2 y))))) =>
      isdigit d1 && isdigit d2 && Ascii.eqb h1 "-"
      && isdigit m1 && isdigit m2 && Ascii.eqb h2 "-"
      && all_digits y && (String.length y =? 4)%nat
  | _ => false
  end.

(** The first word of a line, as [main] takes it, when there is one. *)
Definition command_of (user_input : string) : option string :=
  if String.eqb (strip user_input) "" then None
  else hd_error (split_max1 user_input).

(** What follows the first word of a line, as [main] passes it on. *)
Definition args_of (user_input : string) : string :=
  join " " (tl (split_max1 user_input)).

(** The line makes [main] leave its loop. *)
Definition is_quit (user_input : string) : bool :=
  match command_of user_input with
  | Some command => existsb (String.eqb command) ["close"; "exit"]
  | None => false
  end.

(** The commands that can change the book. *)
Definition is_mutating (user_input : string) : bool :=
  match command_of user_input with
  | Some command => existsb (String.eqb command) ["add"; "change"; "add-birthday"]
  | None => false
  end.

(** A handler that can change the book returns a message, and either
    leaves the world as it is or makes one step of the book and saves
    it. *)
Definition one_step {P : Pickle} (w : world) (res : result string * world) : Prop :=
  exists msg,
    res = (Ok msg, w)
    \/ exists book', book_step (w_book w) book' /\ res = (Ok msg, saved book' w).

(** ** Sample data *)

(** The C library of Linux. *)
Definition glibc : Libc := {| pads_year := false |}.

(** A C library that fills the year with zeros. *)
Definition padding_libc : Libc := {| pads_year := true |}.

Definition sample_today : date := mkdate 2023 1 5.

Definition empty_world : world :=
  {| w_book := AddressBook.empty; w_fs := ∅; w_out := []; w_today := sample_today |}.

Definition john : Record_ :=
  {| name := "John"; phones := ["0501234567"; "0671234567"]; birthday := None |}.

Definition john_world : world :=
  {| w_book := [("John", john)]; w_fs := ∅; w_out := []; w_today := sample_today |}.

(** A world whose address book file is there and empty. *)
Definition empty_file_world : world :=
  {| w_book := AddressBook.empty; w_fs := {[ default_filename := [] ]};
     w_out := []; w_today := sample_today |}.

Definition ann : Record_ :=
  {| name := "Ann"; phones := ["0501112233"]; birthday := Some (mkdate 2000 2 29) |}.

Definition bob : Record_ :=
  {| name := "Bob"; phones := ["0502223344"]; birthday := Some (mkdate 1990 1 10) |}.

(** Ann was born on a 29 February, Bob's birthday is in five days, and
    2023 is no leap year. *)
Definition leap_world : world :=
  {| w_book := [("Ann", ann); ("Bob", bob)]; w_fs := ∅; w_out := [];
     w_today := mkdate 2023 1 5 |}.

(** On 30 December 2024 Carl's birthday of the year, 2 January, is long
    past, and the next one is three days away. *)
Definition carl : Record_ :=
  {| name := "Carl"; phones := []; birthday := Some (mkdate 1990 1 2) |}.

Definition new_year_world : world :=
  {| w_book := [("Carl", carl)]; w_fs := ∅; w_out := [];
     w_today := mkdate 2024 12 30 |}.

(** Bob's birthday is in five days, Carl's was three days ago. *)
Definition week_world : world :=
  {| w_book := [("Carl", carl); ("Bob", bob)]; w_fs := ∅; w_out := [];
     w_today := mkdate 2023 1 5 |}.

(** Christmas of the last year a [date] can have. *)
Definition last_week_world : world :=
  {| w_book := [("John", john)]; w_fs := ∅; w_out := [];
     w_today := mkdate 9999 12 25 |}.

(** * Properties

    Where a statement names no disk, the program runs on [reliable_disk];
    the statements with a disk [D] hold on every disk, under the
    hypotheses they give. *)

(** ** The dictionary *)

Lemma get_setitem_eq key r book :
  AddressBook.get key (AddressBook.setitem key r book) = Some r.
Proof.
  induction book as [|[k r0] rest IH]; simpl.
  - now rewrite String.eqb_refl.
  - destruct (String.eqb k key) eqn:E; simpl; rewrite E; auto.
Qed.

Lemma get_setitem_ne key key' r book :
  key <> key' ->
  AddressBook.get key' (AddressBook.setitem key r book) = AddressBook.get key' book.
Proof.
  intros Hne. induction book as [|[k r0] rest IH]; simpl.
  - destruct (String.eqb key key') eqn:E; [|reflexivity].
    apply String.eqb_eq in E. contradiction.
  - destruct (String.eqb k key) eqn:E; simpl.
    + apply String.eqb_eq in E. subst k.
      destruct (String.eqb key key') eqn:E'; [|reflexivity].
      apply String.eqb_eq in E'. contradiction.
    + now rewrite IH.
Qed.

Lemma keys_setitem_present key r r0 book :
  AddressBook.get key book = Some r0 ->
  AddressBook.keys (AddressBook.setitem key r book) = AddressBook.keys book.
Proof.
  induction book as [|[k r1] rest IH]; simpl; [discriminate|].
  destruct (String.eqb k key) eqn:E; simpl; [reflexivity|].
  intros H. f_equal. now apply IH.
Qed.

(** ** Running the handlers *)

Ltac run1 :=
  unfold input_error, try_except, bind, lift, ret, raise, get_book, put_book,
    save_data, write_file, on_record, AddressBook.find, AddressBook.add_record, id;
  simpl.
Ltac run := repeat progress run1.

Lemma split_two_length args n p rest :
  split args = n :: p :: rest -> (length (split args) <? 2)%nat = false.
Proof. intros ->. reflexivity. Qed.

Section Handlers.

Context {P : Pickle}.

(** What [add] does on a line with a valid phone. *)
Lemma add_contact_valid (w : world) args n p rest :
  split args = n :: p :: rest ->
  PHONE_PATTERN_match p = true ->
  let r := match AddressBook.get n (w_book w) with
           | Some r0 => r0
           | None => Record_init n
           end in
  let r' := {| name := name r; phones := phones r ++ [p]; birthday := birthday r |} in
  let book' := AddressBook.setitem n r'
                 (match AddressBook.get n (w_book w) with
                  | Some _ => w_book w
                  | None => AddressBook.setitem n (Record_init n) (w_book w)
                  end) in
  add_contact args w =
    (Ok (match AddressBook.get n (w_book w) with
         | Some _ => "Contact updated."
         | None => "Contact added."
         end),
     {| w_book := book';
        w_fs := <[default_filename := pickle_dumps book']> (w_fs w);
        w_out := w_out w; w_today := w_today w |}).
Proof.
  intros Hs Hp. unfold add_contact.
  rewrite (split_two_length _ _ _ _ Hs), Hs. run.
  unfold Record_add_phone. rewrite Hp. simpl.
  destruct (AddressBook.get n (w_book w)) as [r0|] eqn:Hg; simpl.
  - rewrite Hg. simpl. reflexivity.
  - rewrite get_setitem_eq. simpl. reflexivity.
Qed.

(** What [change] does on a line with a valid phone. *)
Lemma change_contact_valid (w : world) args n p rest :
  split args = n :: p :: rest ->
  PHONE_PATTERN_match p = true ->
  change_contact args w =
    match AddressBook.get n (w_book w) with
    | Some r =>
        let book' := AddressBook.setitem n
                       {| name := name r; phones := [p]; birthday := birthday r |}
                       (w_book w) in
        (Ok "Contact updated!.",
         {| w_book := book';
            w_fs := <[default_filename := pickle_dumps book']> (w_fs w);
            w_out := w_out w; w_today := w_today w |})
    | None => (Ok "Contact not found!.", w)
    end.
Proof.
  intros Hs Hp. unfold change_contact.
  rewrite (split_two_length _ _ _ _ Hs), Hs. run.
  rewrite Hp. simpl.
  destruct (AddressBook.get n (w_book w)) as [r0|] eqn:Hg; simpl.
  - rewrite Hg. simpl. reflexivity.
  - reflexivity.
Qed.

End Handlers.

(** ** The sample pickle keeps its promise *)

Module CodecFacts.

Import Byte Codec.

Lemma dec_enc_nat n rest : dec_nat (enc_nat n ++ rest) = Some (n, rest).
Proof.
  unfold enc_nat. induction n as [|n IH]; simpl; [reflexivity|].
  now rewrite IH.
Qed.

Lemma dec_enc_Z z rest : dec_Z (enc_Z z ++ rest) = Some (z, rest).
Proof.
  unfold enc_Z, dec_Z. destruct (Z.ltb_spec z 0); simpl;
    rewrite dec_enc_nat; do 2 f_equal; lia.
Qed.

Lemma dec_enc_chars s rest :
  dec_chars (String.length s) (enc_chars s ++ rest) = Some (s, rest).
Proof.
  induction s as [|c s IH]; simpl; [reflexivity|].
  now rewrite IH, ascii_of_byte_of_ascii.
Qed.

Lemma dec_enc_string s rest : dec_string (enc_string s ++ rest) = Some (s, rest).
Proof.
  unfold dec_string, enc_string.
  rewrite <- List.app_assoc, dec_enc_nat. apply dec_enc_chars.
Qed.

Section Lists.
Context {A : Type} (enc : A -> list byte) (dec : parser A).
Hypothesis dec_enc : forall a rest, dec (enc a ++ rest) = Some (a, rest).

Lemma dec_enc_items l rest :
  dec_items dec (length l) (enc_items enc l ++ rest) = Some (l, rest).
Proof.
  induction l as [|a l IH]; simpl; [reflexivity|].
  now rewrite <- List.app_assoc, dec_enc, IH.
Qed.

Lemma dec_enc_list l rest : dec_list dec (enc_list enc l ++ rest) = Some (l, rest).
Proof.
  unfold dec_list, enc_list.
  rewrite <- List.app_assoc, dec_enc_nat. apply dec_enc_items.
Qed.
End Lists.

Lemma dec_enc_date d rest : dec_date (enc_date d ++ rest) = Some (d, rest).
Proof.
  unfold dec_date, enc_date. destruct d as [y m d]; cbn [year month day].
  rewrite <- !List.app_assoc. now rewrite !dec_enc_Z.
Qed.

Lemma dec_enc_birthday b rest :
  dec_birthday (enc_birthday b ++ rest) = Some (b, rest).
Proof.
  destruct b as [d|]; [|reflexivity].
  unfold enc_birthday, dec_birthday. rewrite <- List.app_comm_cons.
  now rewrite dec_enc_date.
Qed.

Lemma dec_enc_record r rest : dec_record (enc_record r ++ rest) = Some (r, rest).
Proof.
  unfold dec_record, enc_record. destruct r as [n ps b]; cbn [name phones birthday].
  rewrite <- !List.app_assoc, dec_enc_string.
  rewrite (dec_enc_list enc_string dec_string dec_enc_string).
  now rewrite dec_enc_birthday.
Qed.

Lemma dec_enc_item kv rest : dec_item (enc_item kv ++ rest) = Some (kv, rest).
Proof.
  unfold dec_item, enc_item. destruct kv as [k r]; cbn [fst snd].
  now rewrite <- List.app_assoc, dec_enc_string, dec_enc_record.
Qed.

Lemma dumps_nonempty book : dumps book <> [].
Proof.
  unfold dumps, enc_list, enc_nat.
  destruct (repeat x01 (length book)); discriminate.
Qed.

Lemma loads_dumps : pickle_roundtrip pickle.
Proof.
  intros book. simpl. unfold loads.
  destruct (dumps book) eqn:E; [now apply dumps_nonempty in E|].
  rewrite <- E, <- (List.app_nil_r (dumps book)). unfold dumps.
  now rewrite (dec_enc_list enc_item dec_item dec_enc_item).
Qed.

End CodecFacts.

(** ** Persistence *)

(** C1. For every store, [save_data] writes the file and [load_data] from
    the same file then returns a store equal to the one saved: the same
    items in the same order, each record with its name, its phone list and
    its optional birthday. The promise of [pickle] is the hypothesis. *)
Theorem save_then_load (P : Pickle) (HP : pickle_roundtrip P)
    (w : world) (book : AddressBook.t) (filename : string) :
  exists w',
    save_data book filename w = (Ok tt, w')
    /\ load_data filename w' = (Ok book, w').
Proof.
  eexists. split; [reflexivity|].
  unfold load_data, read_file. run.
  now rewrite lookup_insert_eq, (HP book).
Qed.

Lemma save_then_load_witness :
  exists w',
    @save_data Codec.pickle reliable_disk [("John", john)] default_filename empty_world = (Ok tt, w')
    /\ @load_data Codec.pickle reliable_disk default_filename w' = (Ok [("John", john)], w').
Proof.
  exact (save_then_load Codec.pickle CodecFacts.loads_dumps empty_world
           [("John", john)] default_filename).
Defined.

(** A missing file gives the empty book. *)
Lemma load_data_missing (P : Pickle) (w : world) (filename : string) :
  w_fs w !! filename = None ->
  load_data filename w = (Ok AddressBook.empty, w).
Proof. intros H. unfold load_data, read_file. run. now rewrite H. Qed.

(** A file that is there is handed to [pickle]; what [pickle] raises,
    [load_data] raises, unless it is [FileNotFoundError]. *)
Lemma load_data_present (P : Pickle) (w : world) (filename : string) content :
  w_fs w !! filename = Some content ->
  load_data filename w =
    match pickle_loads content with
    | Raise FileNotFoundError => (Ok AddressBook.empty, w)
    | r => (r, w)
    end.
Proof.
  intros H. unfold load_data, read_file. run. rewrite H.
  destruct (pickle_loads content) as [b|[]]; reflexivity.
Qed.

(** ** Adding and changing contacts *)

(** C3. When the second word of the line does not match [PHONE_PATTERN],
    [add] and [change] return the error message and the world (the book
    with its records, and the files) is what it was. *)
Theorem invalid_phone_rejected (P : Pickle) (w : world)
    (args n p : string) (rest : list string) :
  split args = n :: p :: rest ->
  PHONE_PATTERN_match p = false ->
  add_contact args w = (Ok "Invalid phone number format.", w)
  /\ change_contact args w = (Ok "Invalid phone number format.", w).
Proof.
  intros Hs Hp. unfold add_contact, change_contact.
  rewrite (split_two_length _ _ _ _ Hs), Hs. run. rewrite Hp. simpl. auto.
Qed.

Lemma invalid_phone_rejected_witness :
  @add_contact Codec.pickle reliable_disk "John 12345" john_world
    = (Ok "Invalid phone number format.", john_world)
  /\ @change_contact Codec.pickle reliable_disk "John 12345" john_world
    = (Ok "Invalid phone number format.", john_world).
Proof.
  apply (invalid_phone_rejected Codec.pickle john_world "John 12345" "John" "12345" []);
    reflexivity.
Defined.

(** C4. After [add] with a name and a valid phone, [find] on that name
    returns a record whose phone list contains the phone. *)
Theorem add_then_find (P : Pickle) (w : world)
    (args n p : string) (rest : list string) :
  split args = n :: p :: rest ->
  PHONE_PATTERN_match p = true ->
  exists msg w' r,
    add_contact args w = (Ok msg, w')
    /\ AddressBook.find n (w_book w') = Some r
    /\ In p (phones r).
Proof.
  intros Hs Hp. rewrite (add_contact_valid w args n p rest Hs Hp).
  do 3 eexists. split; [reflexivity|]. simpl. unfold AddressBook.find.
  rewrite get_setitem_eq. split; [reflexivity|].
  simpl. apply in_or_app. right. now left.
Qed.

Lemma add_then_find_witness :
  exists msg w' r,
    @add_contact Codec.pickle reliable_disk "Ann +0931234567" john_world = (Ok msg, w')
    /\ AddressBook.find "Ann" (w_book w') = Some r
    /\ In "+0931234567" (phones r).
Proof.
  apply (add_then_find Codec.pickle john_world "Ann +0931234567" "Ann" "+0931234567" []);
    reflexivity.
Defined.

(** C7. [change] with a valid phone on a name the book does not have
    returns the not-found message, as a value, and the world is what it
    was. *)
Theorem change_missing_not_found (P : Pickle) (w : world)
    (args n p : string) (rest : list string) :
  split args = n :: p :: rest ->
  PHONE_PATTERN_match p = true ->
  AddressBook.find n (w_book w) = None ->
  change_contact args w = (Ok "Contact not found!.", w).
Proof.
  intros Hs Hp Hf. rewrite (change_contact_valid w args n p rest Hs Hp).
  unfold AddressBook.find in Hf. now rewrite Hf.
Qed.

Lemma change_missing_not_found_witness :
  @change_contact Codec.pickle reliable_disk "Ann 0931234567" john_world
    = (Ok "Contact not found!.", john_world).
Proof.
  apply (change_missing_not_found Codec.pickle john_world
           "Ann 0931234567" "Ann" "0931234567" []); reflexivity.
Defined.

(** C8. [change] with a valid phone on a name the book has leaves that
    record with the one new phone as its whole phone list; every other
    name finds what it found before, and the names keep their order. *)
Theorem change_replaces_phones (P : Pickle) (w : world)
    (args n p : string) (rest : list string) (r : Record_) :
  split args = n :: p :: rest ->
  PHONE_PATTERN_match p = true ->
  AddressBook.find n (w_book w) = Some r ->
  exists w',
    change_contact args w = (Ok "Contact updated!.", w')
    /\ AddressBook.find n (w_book w')
       = Some {| name := name r; phones := [p]; birthday := birthday r |}
    /\ (forall k, k <> n ->
          AddressBook.find k (w_book w') = AddressBook.find k (w_book w))
    /\ AddressBook.keys (w_book w') = AddressBook.keys (w_book w).
Proof.
  intros Hs Hp Hf. rewrite (change_contact_valid w args n p rest Hs Hp).
  unfold AddressBook.find in *. rewrite Hf. eexists. split; [reflexivity|].
  simpl. split; [apply get_setitem_eq|]. split.
  - intros k Hk. apply get_setitem_ne. congruence.
  - now apply keys_setitem_present with r.
Qed.

Lemma change_replaces_phones_witness :
  exists w',
    @change_contact Codec.pickle reliable_disk "John 0931234567" john_world
      = (Ok "Contact updated!.", w')
    /\ AddressBook.find "John" (w_book w')
       = Some {| name := "John"; phones := ["0931234567"]; birthday := None |}
    /\ (forall k, k <> "John" ->
          AddressBook.find k (w_book w') = AddressBook.find k (w_book john_world))
    /\ AddressBook.keys (w_book w') = AddressBook.keys (w_book john_world).
Proof.
  apply (change_replaces_phones Codec.pickle john_world
           "John 0931234567" "John" "0931234567" [] john); reflexivity.
Defined.

(** ** Upcoming birthdays *)

Lemma print_all_run lines w :
  print_all lines w =
    (Ok tt, {| w_book := w_book w; w_fs := w_fs w;
               w_out := w_out w ++ lines; w_today := w_today w |}).
Proof.
  revert w. induction lines as [|l lines IH]; intros w; simpl.
  - unfold ret. rewrite List.app_nil_r. now destruct w.
  - unfold bind, print. rewrite IH. simpl. now rewrite <- List.app_assoc.
Qed.

(** When every birthday exists in this year, the loop ends and has added
    the entries of the records, in the order of the book. *)
Lemma upcoming_loop_ok t nw rs acc :
  forallb (replaceable (year t)) rs = true ->
  upcoming_loop t nw rs acc = Ok (acc ++ omap (this_year_entry t nw) rs).
Proof.
  revert acc. induction rs as [|r rs IH]; intros acc H; simpl.
  - now rewrite List.app_nil_r.
  - simpl in H. apply andb_true_iff in H as [Hr Hrs].
    unfold replaceable in Hr. unfold this_year_entry.
    destruct (birthday r) as [b|]; [|now apply IH].
    destruct (date_replace_year b (year t)) as [d|e]; [|discriminate].
    destruct (date_leb t d && date_leb d nw); [|now apply IH].
    rewrite (IH _ Hrs). now rewrite <- List.app_assoc.
Qed.

(** The first birthday that does not exist in this year stops the loop
    with the error of [replace]; nothing of the list survives. *)
Lemma upcoming_loop_raise t nw rs1 r b e rs2 acc :
  forallb (replaceable (year t)) rs1 = true ->
  birthday r = Some b ->
  date_replace_year b (year t) = Raise e ->
  upcoming_loop t nw (rs1 ++ r :: rs2) acc = Raise e.
Proof.
  revert acc. induction rs1 as [|r1 rs1 IH]; intros acc H Hb He; simpl.
  - now rewrite Hb, He.
  - simpl in H. apply andb_true_iff in H as [Hr Hrs].
    unfold replaceable in Hr.
    destruct (birthday r1) as [b1|]; [|now apply IH].
    destruct (date_replace_year b1 (year t)) as [d|e1]; [|discriminate].
    destruct (date_leb t d && date_leb d nw); now apply IH.
Qed.

(** Whatever the loop returns, what it added are entries of records of
    the book. *)
Lemma upcoming_loop_sound t nw rs acc l :
  upcoming_loop t nw rs acc = Ok l ->
  exists new, l = acc ++ new
    /\ forall e, In e new -> exists r, In r rs /\ this_year_entry t nw r = Some e.
Proof.
  revert acc. induction rs as [|r rs IH]; intros acc H; simpl in H.
  - injection H as <-. exists []. split; [now rewrite List.app_nil_r|]. intros e [].
  - destruct (birthday r) as [b|] eqn:Hb.
    + destruct (date_replace_year b (year t)) as [d|e] eqn:Hd; [|discriminate].
      destruct (date_leb t d && date_leb d nw) eqn:Hw.
      * apply IH in H as (new & -> & Hnew).
        exists ((name r, d) :: new). split; [now rewrite <- List.app_assoc|].
        intros e [<-|He].
        -- exists r. split; [now left|].
           unfold this_year_entry. now rewrite Hb, Hd, Hw.
        -- destruct (Hnew e He) as (r' & Hin & Hr'). exists r'. split; [now right|auto].
      * apply IH in H as (new & -> & Hnew). exists new. split; [reflexivity|].
        intros e He. destruct (Hnew e He) as (r' & Hin & Hr').
        exists r'. split; [now right|auto].
    + apply IH in H as (new & -> & Hnew). exists new. split; [reflexivity|].
      intros e He. destruct (Hnew e He) as (r' & Hin & Hr').
      exists r'. split; [now right|auto].
Qed.

Lemma this_year_entry_window t nw r e :
  this_year_entry t nw r = Some e ->
  fst e = name r
  /\ (exists b, birthday r = Some b /\ date_replace_year b (year t) = Ok (snd e))
  /\ date_leb t (snd e) = true /\ date_leb (snd e) nw = true.
Proof.
  unfold this_year_entry. destruct (birthday r) as [b|]; [|discriminate].
  destruct (date_replace_year b (year t)) as [d|] eqn:Hd; [|discriminate].
  destruct (date_leb t d && date_leb d nw) eqn:Hw; [|discriminate].
  intros [= <-]. apply andb_true_iff in Hw as [H1 H2]. simpl. eauto 6.
Qed.

Lemma input_error_run {A} (of_str : string -> A) (m : M A) w :
  input_error of_str m w =
    match m w with
    | (Ok a, w') => (Ok a, w')
    | (Raise e, w') => (answer_to of_str e, w')
    end.
Proof.
  unfold input_error, try_except. destruct (m w) as [[a|e] w']; [reflexivity|].
  destruct e; try reflexivity. simpl.
  now destruct (_ || _).
Qed.

Lemma show_upcoming_run {L : Libc} w :
  show_upcoming_birthdays w =
    match add_days 7 (w_today w) with
    | Ok next_week =>
        match upcoming_loop (w_today w) next_week (AddressBook.values (w_book w)) [] with
        | Ok [] => (Ok None, printing ["No upcoming birthdays!."] w)
        | Ok l => (Ok None, printing (map birthday_line l) w)
        | Raise e => (answer_to Some e, w)
        end
    | Raise e => (answer_to Some e, w)
    end.
Proof.
  unfold show_upcoming_birthdays. rewrite input_error_run.
  unfold bind, today, lift, get_book.
  destruct (add_days 7 (w_today w)) as [nw|e]; [|reflexivity].
  destruct (upcoming_loop _ _ _ _) as [[|e l]|e]; [| |reflexivity].
  - reflexivity.
  - rewrite print_all_run. reflexivity.
Qed.

(** A birthday that does not exist in this year makes the listing print
    nothing, whatever the other records are: the error of [replace]
    leaves the loop and [input_error] returns its text. *)
Lemma show_upcoming_abandoned {L : Libc} w next_week rs1 r b msg rs2 :
  add_days 7 (w_today w) = Ok next_week ->
  AddressBook.values (w_book w) = rs1 ++ r :: rs2 ->
  forallb (replaceable (year (w_today w))) rs1 = true ->
  birthday r = Some b ->
  date_replace_year b (year (w_today w)) = Raise (ValueError msg) ->
  show_upcoming_birthdays w = (Ok (Some msg), w).
Proof.
  intros Hnw Hv Hrs Hb He. rewrite show_upcoming_run, Hnw, Hv.
  now rewrite (upcoming_loop_raise _ _ _ _ _ _ _ _ Hrs Hb He).
Qed.

(** C5 at [leap_world]. Bob is in the book and his birthday, moved to
    2023, is 10 January, inside the week that starts on 5 January; but the
    listing stops at Ann's 29 February: it prints nothing and returns the
    text of the error, which the loop of [main] drops. *)
Theorem birthdays_leap_day_hides_all :
  In bob (AddressBook.values (w_book leap_world))
  /\ add_days 7 (w_today leap_world) = Ok (mkdate 2023 1 12)
  /\ this_year_entry (w_today leap_world) (mkdate 2023 1 12) bob
     = Some ("Bob", mkdate 2023 1 10)
  /\ @show_upcoming_birthdays glibc leap_world
     = (Ok (Some "day is out of range for month"), leap_world)
  /\ @main_step Codec.pickle reliable_disk glibc "birthdays" leap_world = (Ok true, leap_world).
Proof.
  split; [right; now left|]. repeat split; reflexivity.
Qed.

(** ** Strings, digits and dates *)

Lemma length_append (a b : string) :
  String.length (a +:+ b) = (String.length a + String.length b)%nat.
Proof. induction a as [|c a IH]; simpl; [reflexivity|]. now rewrite IH. Qed.

Lemma append_inj_length (a a' b b' : string) :
  String.length a = String.length a' ->
  a +:+ b = a' +:+ b' -> a = a' /\ b = b'.
Proof.
  revert a'. induction a as [|c a IH]; intros [|c' a'] Hl H; simpl in *;
    try discriminate; [auto|].
  injection H as -> H. injection Hl as Hl.
  destruct (IH a' Hl H) as [-> ->]. auto.
Qed.

Lemma digit_char_inj n m :
  0 <= n <= 9 -> 0 <= m <= 9 -> digit_char n = digit_char m -> n = m.
Proof.
  intros Hn Hm H. unfold digit_char in H.
  apply (f_equal N_of_ascii) in H.
  rewrite !N_ascii_embedding in H by lia. lia.
Qed.

Lemma digit_char_val c : isdigit c = true -> digit_char (digit_val c) = c.
Proof.
  intros _. unfold digit_char, digit_val, ord.
  replace (Z.of_N (N_of_ascii c) - 48 + 48) with (Z.of_N (N_of_ascii c)) by lia.
  now rewrite N2Z.id, ascii_N_embedding.
Qed.

Lemma digit_val_range c : isdigit c = true -> 0 <= digit_val c <= 9.
Proof. unfold isdigit, digit_val. lia. Qed.

Lemma isdigit_not_space c : isdigit c = true -> isspace c = false.
Proof. unfold isdigit, isspace. lia. Qed.

Lemma pad2_inj n m : 0 <= n < 100 -> 0 <= m < 100 -> pad2 n = pad2 m -> n = m.
Proof.
  intros Hn Hm H. unfold pad2, str2 in H. injection H as H1 H2.
  apply digit_char_inj in H1, H2;
    try (split; [apply Z.div_pos|apply Z.lt_succ_r, Z.div_lt_upper_bound]; lia);
    try (pose proof (Z.mod_pos_bound n 10); pose proof (Z.mod_pos_bound m 10); lia).
  rewrite (Z.div_mod n 10), (Z.div_mod m 10) by lia. lia.
Qed.

Lemma pad4_inj n m : 0 <= n < 10000 -> 0 <= m < 10000 -> pad4 n = pad4 m -> n = m.
Proof.
  intros Hn Hm H. unfold pad4 in H.
  assert (H1 : digit_char (n / 1000) = digit_char (m / 1000)) by congruence.
  assert (H2 : digit_char (n / 100 mod 10) = digit_char (m / 100 mod 10))
    by congruence.
  assert (H3 : pad2 (n mod 100) = pad2 (m mod 100)) by congruence.
  clear H. apply pad2_inj in H3;
    try (pose proof (Z.mod_pos_bound n 100); pose proof (Z.mod_pos_bound m 100); lia).
  apply digit_char_inj in H1, H2;
    try (split; [apply Z.div_pos|apply Z.lt_succ_r, Z.div_lt_upper_bound]; lia);
    try (pose proof (Z.mod_pos_bound (n / 100) 10);
         pose proof (Z.mod_pos_bound (m / 100) 10); lia).
  clear Hn Hm. Z.div_mod_to_equations. lia.
Qed.

Lemma days_in_month_le y m : 28 <= days_in_month y m <= 31.
Proof.
  unfold days_in_month.
  destruct (m =? 2); [destruct (is_leap y); lia|].
  destruct (_ || _); lia.
Qed.

(** A date that [date(y, m, d)] returned has the three fields it was
    given, and they are in range. *)
Lemma date_new_Ok y m d x :
  date_new y m d = Ok x ->
  x = mkdate y m d /\ 1 <= y <= 9999 /\ 1 <= m <= 12 /\ 1 <= d <= days_in_month y m.
Proof.
  unfold date_new, MINYEAR, MAXYEAR.
  destruct (negb ((1 <=? y) && (y <=? 9999))) eqn:Hy; [discriminate|].
  destruct (negb ((1 <=? m) && (m <=? 12))) eqn:Hm; [discriminate|].
  destruct (negb ((1 <=? d) && (d <=? days_in_month y m))) eqn:Hd; [discriminate|].
  intros [= <-]. split; [reflexivity|]. lia.
Qed.

Lemma decimal_small_length n :
  (1 <= String.length (decimal_small n) <= 3)%nat.
Proof.
  unfold decimal_small. destruct (n <? 10); [simpl; lia|].
  destruct (n <? 100); simpl; lia.
Qed.

Lemma decimal_small_inj n m :
  0 <= n < 1000 -> 0 <= m < 1000 -> decimal_small n = decimal_small m -> n = m.
Proof.
  intros Hn Hm. unfold decimal_small.
  destruct (Z.ltb_spec n 10) as [Hn1|Hn1], (Z.ltb_spec m 10) as [Hm1|Hm1];
    [|destruct (m <? 100); discriminate|destruct (n <? 100); discriminate|].
  - intros [= E]. apply digit_char_inj in E; lia.
  - destruct (Z.ltb_spec n 100) as [Hn2|Hn2], (Z.ltb_spec m 100) as [Hm2|Hm2];
      try discriminate.
    + apply pad2_inj; lia.
    + intros E.
      assert (E1 : digit_char (n / 100) = digit_char (m / 100))
        by (unfold pad2, str2 in E; congruence).
      assert (E2 : pad2 (n mod 100) = pad2 (m mod 100))
        by (unfold pad2, str2 in *; congruence).
      apply pad2_inj in E2;
        try (pose proof (Z.mod_pos_bound n 100); pose proof (Z.mod_pos_bound m 100); lia).
      apply digit_char_inj in E1;
        try (split; [apply Z.div_pos|apply Z.lt_succ_r, Z.div_lt_upper_bound]; lia).
      clear Hn Hm Hn1 Hm1 Hn2 Hm2. Z.div_mod_to_equations. lia.
Qed.

Section Printing.

Context {L : Libc}.

Lemma strftime_Y_length y : (1 <= String.length (strftime_Y y) <= 4)%nat.
Proof.
  unfold strftime_Y. destruct (pads_year || (1000 <=? y)); [simpl; lia|].
  pose proof (decimal_small_length y). lia.
Qed.

Lemma strftime_Y_inj n m :
  1 <= n <= 9999 -> 1 <= m <= 9999 -> strftime_Y n = strftime_Y m -> n = m.
Proof.
  intros Hn Hm. unfold strftime_Y. destruct pads_year; simpl.
  - apply pad4_inj; lia.
  - destruct (Z.leb_spec 1000 n) as [Hn1|Hn1], (Z.leb_spec 1000 m) as [Hm1|Hm1].
    + apply pad4_inj; lia.
    + intros E. apply (f_equal String.length) in E.
      pose proof (decimal_small_length m). simpl in E. lia.
    + intros E. apply (f_equal String.length) in E.
      pose proof (decimal_small_length n). simpl in E. lia.
    + apply decimal_small_inj; lia.
Qed.

Lemma strftime_unfold d :
  strftime d = pad2 (day d) +:+ "-" +:+ pad2 (month d) +:+ "-" +:+ strftime_Y (year d).
Proof. reflexivity. Qed.

Lemma strftime_length d :
  String.length (strftime d) = (6 + String.length (strftime_Y (year d)))%nat.
Proof. rewrite strftime_unfold, !length_append. reflexivity. Qed.

Lemma strftime_inj a b :
  valid_date a = true -> valid_date b = true -> strftime a = strftime b -> a = b.
Proof.
  unfold valid_date, is_Ok. intros Ha Hb H.
  destruct (date_new (year a) (month a) (day a)) as [xa|] eqn:Ea; [|discriminate].
  destruct (date_new (year b) (month b) (day b)) as [xb|] eqn:Eb; [|discriminate].
  apply date_new_Ok in Ea as (_ & Hya & Hma & Hda).
  apply date_new_Ok in Eb as (_ & Hyb & Hmb & Hdb).
  pose proof (days_in_month_le (year a) (month a)).
  pose proof (days_in_month_le (year b) (month b)).
  rewrite !strftime_unfold in H.
  apply append_inj_length in H as [Hd H]; [|reflexivity].
  apply append_inj_length in H as [_ H]; [|reflexivity].
  apply append_inj_length in H as [Hm H]; [|reflexivity].
  apply append_inj_length in H as [_ Hy]; [|reflexivity].
  apply pad2_inj in Hd, Hm; try lia. apply strftime_Y_inj in Hy; try lia.
  destruct a, b; simpl in *. congruence.
Qed.

(** Two lines with dates of one year are equal only for equal names and
    equally printed dates. *)
Lemma birthday_line_inj e e' :
  year (snd e) = year (snd e') ->
  birthday_line e = birthday_line e' ->
  fst e = fst e' /\ strftime (snd e) = strftime (snd e').
Proof.
  unfold birthday_line. intros Hy H.
  assert (Hl : String.length (fst e) = String.length (fst e')).
  { apply (f_equal String.length) in H.
    rewrite !length_append, !strftime_length, Hy in H. lia. }
  apply append_inj_length in H as [Hn H]; [|exact Hl].
  apply append_inj_length in H as [_ H]; [|reflexivity]. auto.
Qed.

Lemma birthday_line_not_none e : birthday_line e <> "No upcoming birthdays!.".
Proof.
  unfold birthday_line. intros H.
  pose proof (strftime_Y_length (year (snd e))) as Hy.
  assert (Hl : (String.length (fst e) + String.length (strftime_Y (year (snd e)))
                = 15)%nat).
  { apply (f_equal String.length) in H.
    rewrite !length_append, !strftime_length in H. simpl in H. lia. }
  assert (Hcases : String.length (fst e) = 11%nat \/ String.length (fst e) = 12%nat
                   \/ String.length (fst e) = 13%nat
                   \/ String.length (fst e) = 14%nat) by lia.
  destruct Hcases as [Hc|[Hc|[Hc|Hc]]].
  - change "No upcoming birthdays!." with ("No upcoming" +:+ " birthdays!.") in H.
    apply append_inj_length in H as [_ H]; [|exact Hc]. discriminate.
  - change "No upcoming birthdays!." with ("No upcoming " +:+ "birthdays!.") in H.
    apply append_inj_length in H as [_ H]; [|exact Hc]. discriminate.
  - change "No upcoming birthdays!." with ("No upcoming b" +:+ "irthdays!.") in H.
    apply append_inj_length in H as [_ H]; [|exact Hc]. discriminate.
  - change "No upcoming birthdays!." with ("No upcoming bi" +:+ "rthdays!.") in H.
    apply append_inj_length in H as [_ H]; [|exact Hc]. discriminate.
Qed.

End Printing.

Lemma date_compare_antisym a b : date_compare b a = CompOpp (date_compare a b).
Proof.
  unfold date_compare.
  rewrite (Z.compare_antisym (year a)), (Z.compare_antisym (month a)),
    (Z.compare_antisym (day a)).
  destruct (year a ?= year b); simpl; try reflexivity.
  destruct (month a ?= month b); reflexivity.
Qed.

Lemma date_ltb_not_leb a b : date_ltb a b = true -> date_leb b a = false.
Proof.
  unfold date_ltb, date_leb. rewrite (date_compare_antisym a b).
  destruct (date_compare a b); simpl; congruence.
Qed.

Lemma replace_year_year b y d : date_replace_year b y = Ok d -> year d = y.
Proof.
  unfold date_replace_year. intros H. now apply date_new_Ok in H as (-> & _).
Qed.

Lemma replace_year_valid b y d : date_replace_year b y = Ok d -> valid_date d = true.
Proof.
  unfold date_replace_year. intros H. pose proof H as H'.
  apply date_new_Ok in H' as (-> & _). unfold valid_date. simpl. now rewrite H.
Qed.

(** Every line the listing prints is the line of an entry of a record of
    the book, or the one line that says there is none. *)
Lemma show_upcoming_lines {L : Libc} w :
  exists lines,
    snd (show_upcoming_birthdays w) = printing lines w
    /\ forall line, In line lines ->
         line = "No upcoming birthdays!."
         \/ exists next_week r e,
              add_days 7 (w_today w) = Ok next_week
              /\ In r (AddressBook.values (w_book w))
              /\ this_year_entry (w_today w) next_week r = Some e
              /\ line = birthday_line e.
Proof.
  rewrite show_upcoming_run.
  assert (Hnone : forall x : result (option string),
            exists lines, snd (x, w) = printing lines w
              /\ forall line, In line lines ->
                   line = "No upcoming birthdays!."
                   \/ exists next_week r e,
                        add_days 7 (w_today w) = Ok next_week
                        /\ In r (AddressBook.values (w_book w))
                        /\ this_year_entry (w_today w) next_week r = Some e
                        /\ line = birthday_line e).
  { intros x. exists []. split; [|intros ? []].
    unfold printing. simpl. rewrite List.app_nil_r. now destruct w. }
  destruct (add_days 7 (w_today w)) as [nw|e]; [|apply Hnone].
  destruct (upcoming_loop _ _ _ _) as [l|e] eqn:Hl; [|apply Hnone].
  apply upcoming_loop_sound in Hl as (new & -> & Hnew). simpl.
  destruct new as [|e0 new].
  - exists ["No upcoming birthdays!."]. split; [reflexivity|].
    intros line [<-|[]]. now left.
  - exists (map birthday_line (e0 :: new)). split; [reflexivity|].
    intros line Hin. right. apply in_map_iff in Hin as (e & <- & He).
    destruct (Hnew e He) as (r & Hr & Hre). eauto 8.
Qed.

Lemma append_String c (a b : string) : String c a +:+ b = String c (a +:+ b).
Proof. reflexivity. Qed.

Lemma append_empty_l (b : string) : "" +:+ b = b.
Proof. reflexivity. Qed.

(** A text that starts with [": "] does not start with a word and
    [": "], unless the word is empty. *)
Lemma colon_blank_first b x y :
  no_blank b = true -> String ":" (String " " x) = b +:+ ": " +:+ y -> b = "".
Proof.
  intros Hb H. destruct b as [|c1 [|c2 b]]; [reflexivity| |].
  - rewrite !append_String, append_empty_l in H. discriminate.
  - rewrite !append_String in H. injection H as _ <- _.
    simpl in Hb. apply andb_true_iff in Hb as [_ Hb]. discriminate Hb.
Qed.

(** A word is what a line has before its first [": "]. *)
Lemma name_colon_inj a : forall b x y,
  no_blank a = true -> no_blank b = true ->
  a +:+ ": " +:+ x = b +:+ ": " +:+ y -> a = b.
Proof.
  induction a as [|c a IH]; intros b x y Ha Hb H.
  - symmetry. now apply (colon_blank_first b x y).
  - destruct b as [|c' b].
    + apply (colon_blank_first (String c a) y x); [assumption|]. now symmetry.
    + rewrite !append_String in H. injection H as <- H.
      simpl in Ha, Hb. apply andb_true_iff in Ha as [_ Ha], Hb as [_ Hb].
      f_equal. now apply (IH b x y).
Qed.

(** The line that says there is no birthday is not the line of a name. *)
Lemma none_line_no_name a x :
  no_blank a = true -> "No upcoming birthdays!." <> a +:+ ": " +:+ x.
Proof.
  intros Ha H. destruct a as [|c1 [|c2 [|c3 a]]];
    rewrite ?append_String, ?append_empty_l in H; try discriminate.
  injection H as _ _ <- _.
  simpl in Ha. do 2 (apply andb_true_iff in Ha as [_ Ha]). discriminate Ha.
Qed.

Lemma values_In book r :
  In r (AddressBook.values book) <-> exists k, In (k, r) book.
Proof.
  unfold AddressBook.values. rewrite in_map_iff. split.
  - intros ([k r'] & <- & H). eauto.
  - intros (k & H). exists (k, r). auto.
Qed.

(** A dictionary has one record under a key. *)
Lemma keys_NoDup_functional (book : AddressBook.t) k r r' :
  NoDup (AddressBook.keys book) -> In (k, r) book -> In (k, r') book -> r = r'.
Proof.
  induction book as [|[k0 r0] rest IH]; simpl; [intros _ []|].
  intros Hnd H1 H2. apply NoDup_cons in Hnd as [Hnotin Hnd].
  assert (Hk : forall x, In (k0, x) rest -> False).
  { intros x Hx. apply Hnotin, list_elem_of_In, in_map_iff. exists (k0, x). auto. }
  destruct H1 as [H1|H1], H2 as [H2|H2].
  - congruence.
  - injection H1 as -> _. now apply Hk in H2.
  - injection H2 as -> _. now apply Hk in H1.
  - now apply IH.
Qed.

(** In a book that is a dictionary of records under their own names, a
    name is the name of one record, and it is one word. *)
Lemma wf_book_name book r r' :
  wf_book book ->
  In r (AddressBook.values book) -> In r' (AddressBook.values book) ->
  no_blank (name r) = true /\ (name r = name r' -> r = r').
Proof.
  intros [Hnd Hall] Hr Hr'.
  apply values_In in Hr as [k Hk], Hr' as [k' Hk'].
  destruct (Hall _ _ Hk) as (Hn & Hb & _), (Hall _ _ Hk') as (Hn' & _ & _).
  split; [now rewrite Hn|].
  intros E. apply (keys_NoDup_functional book k); [assumption|assumption|].
  replace k with k' by congruence. assumption.
Qed.

(** C10. Let a record of the book have its birthday, moved to the year of
    today, on a day before today. Then, first, every line the listing
    prints is the line that says there is none or the line of a record
    with its birthday moved to the year of today, a day that is not
    before today: no line shows a day of the next year, the week never
    wraps. Second, the line of this record with that day is not printed.
    Third, when the book is a dictionary of records under their own
    one-word names, as every book of the program is, no line at all
    starts with the name of this record, whatever follows the name. *)
Theorem past_birthday_not_listed (L : Libc) (w : world) (r : Record_) (b d : date) :
  In r (AddressBook.values (w_book w)) ->
  birthday r = Some b ->
  date_replace_year b (year (w_today w)) = Ok d ->
  date_ltb d (w_today w) = true ->
  exists lines,
    w_out (snd (show_upcoming_birthdays w)) = w_out w ++ lines
    /\ (forall line, In line lines ->
          line = "No upcoming birthdays!."
          \/ exists r' b' d',
               In r' (AddressBook.values (w_book w))
               /\ birthday r' = Some b'
               /\ date_replace_year b' (year (w_today w)) = Ok d'
               /\ year d' = year (w_today w)
               /\ date_leb (w_today w) d' = true
               /\ line = birthday_line (name r', d'))
    /\ ~ In (birthday_line (name r, d)) lines
    /\ (wf_book (w_book w) ->
        forall rest, ~ In (name r +:+ ": " +:+ rest) lines).
Proof.
  intros Hr Hb Hd Hlt.
  destruct (show_upcoming_lines w) as (lines & Hw & Hlines).
  exists lines. split; [now rewrite Hw|].
  assert (Hentry : forall line, In line lines ->
            line = "No upcoming birthdays!."
            \/ exists r' b' d',
                 In r' (AddressBook.values (w_book w))
                 /\ birthday r' = Some b'
                 /\ date_replace_year b' (year (w_today w)) = Ok d'
                 /\ year d' = year (w_today w)
                 /\ date_leb (w_today w) d' = true
                 /\ line = birthday_line (name r', d')).
  { intros line Hin.
    destruct (Hlines _ Hin) as [Hnone|(nw & r' & e & _ & Hr' & He & Hline)];
      [now left|right].
    apply this_year_entry_window in He as (Hn & (b' & Hb' & Hd') & Hle & _).
    exists r', b', (snd e). rewrite <- Hn.
    repeat split; try assumption. now apply replace_year_year in Hd'. }
  split; [exact Hentry|]. split.
  - intros Hin.
    destruct (Hlines _ Hin) as [Hnone|(nw & r' & e & _ & _ & He & Hline)].
    + now apply birthday_line_not_none in Hnone.
    + apply this_year_entry_window in He as (_ & (b' & _ & Hd') & Hle & _).
      apply birthday_line_inj in Hline as [_ Hs];
        [|simpl; now rewrite (replace_year_year _ _ _ Hd), (replace_year_year _ _ _ Hd')].
      simpl in Hs. apply strftime_inj in Hs;
        [|now apply replace_year_valid in Hd|now apply replace_year_valid in Hd'].
      subst d. apply date_ltb_not_leb in Hlt. congruence.
  - intros Hwf rest Hin.
    destruct (Hentry _ Hin) as [Hnone|(r' & b' & d' & Hr' & Hb' & Hd' & _ & Hle & Hline)].
    + symmetry in Hnone. revert Hnone. apply none_line_no_name.
      apply (wf_book_name _ r r Hwf Hr Hr).
    + unfold birthday_line in Hline. cbn [fst snd] in Hline.
      apply name_colon_inj in Hline;
        [|apply (wf_book_name _ r r Hwf Hr Hr)|apply (wf_book_name _ r' r' Hwf Hr' Hr')].
      apply (wf_book_name _ r r' Hwf Hr Hr') in Hline. subst r'.
      assert (d' = d) by congruence. subst d'.
      apply date_ltb_not_leb in Hlt. congruence.
Qed.

Lemma past_birthday_not_listed_witness :
  exists lines,
    w_out (snd (@show_upcoming_birthdays glibc new_year_world))
      = w_out new_year_world ++ lines
    /\ ~ In (@birthday_line glibc ("Carl", mkdate 2024 1 2)) lines
    /\ ~ In "Carl: 02-01-2025" lines
    /\ forall rest, ~ In ("Carl" +:+ ": " +:+ rest) lines.
Proof.
  destruct (past_birthday_not_listed glibc new_year_world carl (mkdate 1990 1 2)
              (mkdate 2024 1 2)) as (lines & Hout & _ & Hline & Hname);
    [now left | reflexivity | reflexivity | reflexivity |].
  assert (Hwf : wf_book (w_book new_year_world)).
  { split; [apply NoDup_singleton|].
    intros k r [[= <- <-]|[]]. repeat split. discriminate. }
  exists lines. split; [exact Hout|]. split; [exact Hline|].
  split; [exact (Hname Hwf "02-01-2025")|exact (Hname Hwf)].
Defined.

(** The case the year boundary is about: on 30 December 2024 Carl's next
    birthday, 2 January 2025, is three days away, and the listing says
    there is none. *)
Example new_year_not_wrapped :
  add_days 7 (w_today new_year_world) = Ok (mkdate 2025 1 6)
  /\ date_leb (w_today new_year_world) (mkdate 2025 1 2) = true
  /\ date_leb (mkdate 2025 1 2) (mkdate 2025 1 6) = true
  /\ @show_upcoming_birthdays glibc new_year_world
     = (Ok None, printing ["No upcoming birthdays!."] new_year_world).
Proof. repeat split; reflexivity. Qed.

(** The listing when every birthday of the book exists in this year and
    the week does not run past the last date: it prints the entries of
    the records, in the order of the book, that is, of exactly the records
    whose birthday moved to this year is in the week. *)
Lemma show_upcoming_exact {L : Libc} w next_week :
  add_days 7 (w_today w) = Ok next_week ->
  forallb (replaceable (year (w_today w))) (AddressBook.values (w_book w)) = true ->
  let entries :=
    omap (this_year_entry (w_today w) next_week) (AddressBook.values (w_book w)) in
  show_upcoming_birthdays w =
    (Ok None,
     printing (match entries with
               | [] => ["No upcoming birthdays!."]
               | _ => map birthday_line entries
               end) w)
  /\ forall n d,
       In (n, d) entries <->
       exists r b,
         In r (AddressBook.values (w_book w))
         /\ birthday r = Some b /\ name r = n
         /\ date_replace_year b (year (w_today w)) = Ok d
         /\ date_leb (w_today w) d = true /\ date_leb d next_week = true.
Proof.
  intros Hnw Hall entries. split.
  - rewrite show_upcoming_run, Hnw, (upcoming_loop_ok _ _ _ _ Hall). simpl.
    fold entries. now destruct entries.
  - intros n d. unfold entries.
    rewrite <- list_elem_of_In, list_elem_of_omap. split.
    + intros (r & Hr & He). apply list_elem_of_In in Hr.
      apply this_year_entry_window in He as (Hn & (b & Hb & Hd) & H1 & H2).
      simpl in *. exists r, b. auto 8.
    + intros (r & b & Hr & Hb & Hn & Hd & H1 & H2). exists r.
      split; [now apply list_elem_of_In|].
      unfold this_year_entry. now rewrite Hb, Hd, H1, H2, Hn.
Qed.

(** ** Words and blanks *)

Lemma no_blank_append a b : no_blank (a +:+ b) = no_blank a && no_blank b.
Proof.
  induction a as [|c a IH]; simpl; [reflexivity|]. now rewrite IH, andb_assoc.
Qed.

Lemma rstrip_no_blank s : no_blank s = true -> rstrip s = s.
Proof.
  induction s as [|c s IH]; simpl; [reflexivity|].
  intros H. apply andb_true_iff in H as [Hc Hs]. rewrite (IH Hs).
  destruct s; [|reflexivity]. now destruct (isspace c).
Qed.

Lemma strip_no_blank s : no_blank s = true -> strip s = s.
Proof.
  intros H. unfold strip.
  assert (lstrip s = s) as ->; [|now apply rstrip_no_blank].
  destruct s as [|c s]; simpl in *; [reflexivity|].
  now destruct (isspace c).
Qed.

(** The words [split] returns have no blank in them. *)
Lemma split_go_no_blank s : forall cur t,
  no_blank cur = true -> In t (split_go cur s) -> no_blank t = true.
Proof.
  induction s as [|c s IH]; intros cur t Hcur; simpl.
  - destruct (String.eqb cur ""); simpl; [tauto|]. now intros [<-|[]].
  - destruct (isspace c) eqn:Hc.
    + destruct (String.eqb cur ""); simpl.
      * now apply IH.
      * intros [<-|H]; [assumption|]. now apply (IH "").
    + apply IH. rewrite no_blank_append, Hcur. simpl. now rewrite Hc.
Qed.

Lemma split_no_blank s t : In t (split s) -> no_blank t = true.
Proof. now apply split_go_no_blank. Qed.

(** ** Parsing a date and printing it *)

Ltac chars :=
  unfold in_range, isdigit, isspace in *;
  change (ord "0") with 48 in *; change (ord "1") with 49 in *;
  change (ord "2") with 50 in *; change (ord "3") with 51 in *;
  change (ord "9") with 57 in *; change (ord " ") with 32 in *.

Lemma re_d_elem s t r :
  (t, r) ∈ re_d s ->
  s = t +:+ r
  /\ ((exists a, t = str1 a /\ isdigit a = true)
      \/ (exists a b, t = str2 a b /\ isdigit b = true
                      /\ (isdigit a = true \/ a = " "%char))).
Proof.
  destruct s as [|a [|b s]]; simpl.
  - intros H. now apply elem_of_nil in H.
  - destruct (in_range "1" "9" a) eqn:Ha; intros H;
      [|now apply elem_of_nil in H].
    apply list_elem_of_singleton in H. injection H as -> ->.
    split; [reflexivity|]. left. exists a. split; [reflexivity|]. chars. lia.
  - rewrite !elem_of_app.
    destruct (Ascii.eqb a "3" && in_range "0" "1" b) eqn:H1;
    destruct (in_range "1" "2" a && isdigit b) eqn:H2;
    destruct (Ascii.eqb a "0" && in_range "1" "9" b) eqn:H3;
    destruct (in_range "1" "9" a) eqn:H4;
    destruct (Ascii.eqb a " " && in_range "1" "9" b) eqn:H5;
    rewrite ?elem_of_nil, ?list_elem_of_singleton;
    intros H; repeat (destruct H as [H|H]); try contradiction;
    injection H as -> ->; (split; [reflexivity|]);
    try (left; exists a; split; [reflexivity|chars; lia]);
    right; exists a, b; (split; [reflexivity|]);
    repeat match goal with
           | H : _ && _ = true |- _ => apply andb_true_iff in H as [? ?]
           | H : Ascii.eqb _ _ = true |- _ => apply Ascii.eqb_eq in H; subst
           end;
    try (split; [chars; lia|left; chars; lia]);
    try (split; [chars; lia|left; reflexivity]);
    try (split; [chars; lia|right; reflexivity]).
Qed.

Lemma re_m_elem s t r :
  (t, r) ∈ re_m s ->
  s = t +:+ r
  /\ ((exists a, t = str1 a /\ isdigit a = true)
      \/ (exists a b, t = str2 a b /\ isdigit a = true /\ isdigit b = true)).
Proof.
  destruct s as [|a [|b s]]; simpl.
  - intros H. now apply elem_of_nil in H.
  - destruct (in_range "1" "9" a) eqn:Ha; intros H;
      [|now apply elem_of_nil in H].
    apply list_elem_of_singleton in H. injection H as -> ->.
    split; [reflexivity|]. left. exists a. split; [reflexivity|]. chars. lia.
  - rewrite !elem_of_app.
    destruct (Ascii.eqb a "1" && in_range "0" "2" b) eqn:H1;
    destruct (Ascii.eqb a "0" && in_range "1" "9" b) eqn:H2;
    destruct (in_range "1" "9" a) eqn:H3;
    rewrite ?elem_of_nil, ?list_elem_of_singleton;
    intros H; repeat (destruct H as [H|H]); try contradiction;
    injection H as -> ->; (split; [reflexivity|]);
    try (left; exists a; split; [reflexivity|chars; lia]);
    right; exists a, b; (split; [reflexivity|]);
    repeat match goal with
           | H : _ && _ = true |- _ => apply andb_true_iff in H as [? ?]
           | H : Ascii.eqb _ _ = true |- _ => apply Ascii.eqb_eq in H; subst
           end;
    try (split; chars; lia); split; try reflexivity; chars; lia.
Qed.

Lemma re_Y_elem s t r :
  (t, r) ∈ re_Y s ->
  s = t +:+ r
  /\ exists a b c d,
       t = String a (String b (str2 c d))
       /\ isdigit a = true /\ isdigit b = true
       /\ isdigit c = true /\ isdigit d = true.
Proof.
  unfold re_Y.
  destruct s as [|a [|b [|c [|d s]]]]; simpl;
    try (intros H; now apply elem_of_nil in H);
    try (destruct (isdigit a); simpl; intros H; now apply elem_of_nil in H);
    try (destruct (isdigit a), (isdigit b); simpl; intros H;
         now apply elem_of_nil in H);
    try (destruct (isdigit a), (isdigit b), (isdigit c); simpl; intros H;
         now apply elem_of_nil in H).
  destruct (isdigit a) eqn:Ha, (isdigit b) eqn:Hb, (isdigit c) eqn:Hc,
    (isdigit d) eqn:Hd; simpl; intros H; try now apply elem_of_nil in H.
  apply list_elem_of_singleton in H. injection H as -> ->.
  split; [reflexivity|]. exists a, b, c, d. auto.
Qed.

Lemma re_lit_elem c s r : r ∈ re_lit c s -> s = String c r.
Proof.
  destruct s as [|a s]; simpl; [intros H; now apply elem_of_nil in H|].
  destruct (Ascii.eqb_spec a c) as [->|]; intros H;
    [|now apply elem_of_nil in H].
  apply list_elem_of_singleton in H. now subst.
Qed.

Lemma re_dmY_elem s d m y rest :
  (d, m, y, rest) ∈ re_dmY s ->
  exists r1 r3,
    (d, String "-" r1) ∈ re_d s
    /\ (m, String "-" r3) ∈ re_m r1
    /\ (y, rest) ∈ re_Y r3.
Proof.
  unfold re_dmY. intros H.
  apply list_elem_of_bind in H as ([d0 r1] & H & Hd).
  apply list_elem_of_bind in H as (r2 & H & H1).
  apply list_elem_of_bind in H as ([m0 r3] & H & Hm).
  apply list_elem_of_bind in H as (r4 & H & H2).
  apply list_elem_of_bind in H as ([y0 r5] & H & Hy).
  apply list_elem_of_singleton in H. injection H as -> -> -> ->.
  apply re_lit_elem in H1, H2. subst. eauto.
Qed.

Lemma int_digits s : no_blank s = true -> int s = int_of_digits s.
Proof. intros H. unfold int. now rewrite strip_no_blank. Qed.

Lemma pad2_int a b :
  isdigit a = true -> isdigit b = true -> pad2 (int (str2 a b)) = str2 a b.
Proof.
  intros Ha Hb. rewrite int_digits
    by (simpl; now rewrite !isdigit_not_space).
  unfold int_of_digits, pad2. simpl.
  pose proof (digit_val_range a Ha). pose proof (digit_val_range b Hb).
  replace ((10 * (10 * 0 + digit_val a) + digit_val b) / 10) with (digit_val a)
    by (Z.div_mod_to_equations; lia).
  replace ((10 * (10 * 0 + digit_val a) + digit_val b) mod 10) with (digit_val b)
    by (Z.div_mod_to_equations; lia).
  now rewrite !digit_char_val.
Qed.

Lemma pad4_int a b c d :
  isdigit a = true -> isdigit b = true -> isdigit c = true -> isdigit d = true ->
  pad4 (int (String a (String b (str2 c d)))) = String a (String b (str2 c d)).
Proof.
  intros Ha Hb Hc Hd. rewrite int_digits
    by (simpl; now rewrite !isdigit_not_space).
  unfold int_of_digits, pad4, pad2. simpl.
  pose proof (digit_val_range a Ha). pose proof (digit_val_range b Hb).
  pose proof (digit_val_range c Hc). pose proof (digit_val_range d Hd).
  set (n := 10 * (10 * (10 * (10 * 0 + digit_val a) + digit_val b) + digit_val c)
            + digit_val d).
  replace (n / 1000) with (digit_val a) by (subst n; Z.div_mod_to_equations; lia).
  replace (n / 100 mod 10) with (digit_val b)
    by (subst n; Z.div_mod_to_equations; lia).
  replace (n mod 100 / 10) with (digit_val c)
    by (subst n; Z.div_mod_to_equations; lia).
  replace ((n mod 100) mod 10) with (digit_val d)
    by (subst n; Z.div_mod_to_equations; lia).
  now rewrite !digit_char_val.
Qed.

(** A text of ten characters without a blank that [strptime] accepts is
    two digits, a dash, two digits, a dash and four digits; when the year
    is printed with four digits, [strftime] prints the date as that
    text. *)
Lemma strptime_strftime {L : Libc} s dt :
  strptime s = Ok dt ->
  String.length s = 10%nat ->
  no_blank s = true ->
  pads_year = true \/ 1000 <= year dt ->
  strftime dt = s.
Proof.
  unfold strptime. intros H Hlen Hnb Hyear.
  destruct (re_dmY s) as [|[[[d m] y] rest] l] eqn:E; [discriminate|].
  destruct (String.eqb_spec rest "") as [->|]; [simpl in H|discriminate].
  assert (Hin : (d, m, y, "") ∈ re_dmY s) by (rewrite E; apply list_elem_of_here).
  apply re_dmY_elem in Hin as (r1 & r3 & Hd & Hm & Hy).
  apply re_d_elem in Hd as [-> Hd]. apply re_m_elem in Hm as [-> Hm].
  apply re_Y_elem in Hy as [-> (a & b & c & e & -> & Ha & Hb & Hc & He)].
  apply date_new_Ok in H as (-> & _). rewrite strftime_unfold.
  cbn [year month day] in *. unfold strftime_Y.
  assert (pads_year || (1000 <=? int (String a (String b (str2 c e)))) = true)
    as -> by (destruct Hyear as [->|Hyear]; [reflexivity|]; apply orb_true_iff;
              right; lia).
  rewrite pad4_int by assumption.
  destruct Hd as [(d1 & -> & _)|(d1 & d2 & -> & Hd2 & Hd1)];
    destruct Hm as [(m1 & -> & _)|(m1 & m2 & -> & Hm1 & Hm2)];
    try (simpl in Hlen; discriminate).
  destruct Hd1 as [Hd1| ->].
  - now rewrite !pad2_int by assumption.
  - simpl in Hnb. discriminate.
Qed.

Lemma date_new_raises y m d e :
  date_new y m d = Raise e -> exists msg, e = ValueError msg.
Proof.
  unfold date_new.
  repeat match goal with
         | |- context [if ?c then _ else _] => destruct c
         end; intros [= <-]; eauto.
Qed.

Lemma strptime_raises s e : strptime s = Raise e -> exists msg, e = ValueError msg.
Proof.
  unfold strptime. destruct (re_dmY s) as [|[[[d m] y] rest] l].
  - intros [= <-]. eauto.
  - destruct (negb (String.eqb rest "")).
    + intros [= <-]. eauto.
    + apply date_new_raises.
Qed.

(** [Birthday] fails with its one message only. *)
Lemma Birthday_raises s e :
  Birthday s = Raise e -> e = ValueError "Invalid date format. Use DD-MM-YYYY".
Proof.
  unfold Birthday. destruct (strptime s) as [d|e'] eqn:E; [discriminate|].
  apply strptime_raises in E as [msg ->]. now intros [= <-].
Qed.

Lemma Birthday_Ok s d : Birthday s = Ok d -> strptime s = Ok d.
Proof.
  unfold Birthday. destruct (strptime s) as [d'|[]]; congruence.
Qed.

Section MoreHandlers.

Context {P : Pickle} {L : Libc}.

Lemma add_contact_few (w : world) args :
  (length (split args) <? 2)%nat = true ->
  add_contact args w = (Ok "Enter name and phone please", w)
  /\ change_contact args w = (Ok "Enter name and phone please", w).
Proof.
  intros H. unfold add_contact, change_contact. rewrite H. now run.
Qed.

Lemma add_birthday_few (w : world) args :
  (length (split args) <? 2)%nat = true ->
  add_birthday args w =
    (Ok ("not enough values to unpack (expected at least 2, got "
         +:+ str_of_Z (Z.of_nat (length (split args))) +:+ ")"), w).
Proof.
  intros H. unfold add_birthday. rewrite input_error_run.
  unfold bind, lift. destruct (split args) as [|a [|b l]]; try discriminate;
    reflexivity.
Qed.

Lemma add_birthday_run (w : world) args n s rest :
  split args = n :: s :: rest ->
  add_birthday args w =
    match AddressBook.get n (w_book w) with
    | Some r =>
        match Birthday s with
        | Ok d =>
            let book' := AddressBook.setitem n
                           {| name := name r; phones := phones r; birthday := Some d |}
                           (w_book w) in
            (Ok "Birthday added!.",
             {| w_book := book';
                w_fs := <[default_filename := pickle_dumps book']> (w_fs w);
                w_out := w_out w; w_today := w_today w |})
        | Raise _ => (Ok "Invalid date format. Use DD-MM-YYYY", w)
        end
    | None => (Ok "Contact not found!.", w)
    end.
Proof.
  intros Hs. unfold add_birthday. rewrite input_error_run, Hs. run.
  destruct (AddressBook.get n (w_book w)) as [r|] eqn:Hg; simpl; [|reflexivity].
  rewrite Hg. simpl. unfold Record_add_birthday.
  destruct (Birthday s) as [d|e] eqn:Hb; simpl; [reflexivity|].
  now rewrite (Birthday_raises _ _ Hb).
Qed.

Lemma show_birthday_run (w : world) q :
  show_birthday q w =
    (Ok match AddressBook.get (strip q) (w_book w) with
        | Some r =>
            match birthday r with
            | Some b => strftime b
            | None => "No birthday set!."
            end
        | None => "Contact not found!."
        end, w).
Proof.
  unfold show_birthday. rewrite input_error_run. run.
  destruct (AddressBook.get (strip q) (w_book w)) as [r|]; [|reflexivity].
  now destruct (birthday r).
Qed.

Lemma show_phone_run (w : world) q :
  show_phone q w =
    (Ok match AddressBook.get (strip q) (w_book w) with
        | Some r => join ", " (phones r)
        | None => "Contact not found!."
        end, w).
Proof.
  unfold show_phone. rewrite input_error_run. run.
  now destruct (AddressBook.get (strip q) (w_book w)).
Qed.

(** On [reliable_disk] the five handlers always return a string: no
    exception leaves them, whatever the line and the world. *)
Lemma handlers_return_a_message (w : world) (line : string) :
  (exists msg w', add_contact line w = (Ok msg, w'))
  /\ (exists msg w', change_contact line w = (Ok msg, w'))
  /\ (exists msg w', show_phone line w = (Ok msg, w'))
  /\ (exists msg w', add_birthday line w = (Ok msg, w'))
  /\ (exists msg w', show_birthday line w = (Ok msg, w')).
Proof.
  assert (Hfew : forall l : list string,
            (exists n p rest, l = n :: p :: rest) \/ (length l <? 2)%nat = true).
  { intros [|a [|b l]]; eauto. }
  repeat split.
  - destruct (Hfew (split line)) as [(n & p & rest & Hs)|H].
    + destruct (PHONE_PATTERN_match p) eqn:Hp.
      * rewrite (add_contact_valid w line n p rest Hs Hp). eauto.
      * unfold add_contact. rewrite (split_two_length _ _ _ _ Hs), Hs. run.
        rewrite Hp. simpl. eauto.
    + rewrite (proj1 (add_contact_few w line H)). eauto.
  - destruct (Hfew (split line)) as [(n & p & rest & Hs)|H].
    + destruct (PHONE_PATTERN_match p) eqn:Hp.
      * rewrite (change_contact_valid w line n p rest Hs Hp).
        destruct (AddressBook.get n (w_book w)); eauto.
      * unfold change_contact. rewrite (split_two_length _ _ _ _ Hs), Hs. run.
        rewrite Hp. simpl. eauto.
    + rewrite (proj2 (add_contact_few w line H)). eauto.
  - rewrite show_phone_run. eauto.
  - destruct (Hfew (split line)) as [(n & p & rest & Hs)|H].
    + rewrite (add_birthday_run w line n p rest Hs).
      destruct (AddressBook.get n (w_book w)); [|eauto].
      destruct (Birthday p); eauto.
    + rewrite (add_birthday_few w line H). eauto.
  - rewrite show_birthday_run. eauto.
Qed.

(** A name the book does not have gets the not-found message from the
    four handlers that look a contact up. *)
Lemma missing_contact_not_found (w : world) (n p : string) :
  no_blank n = true ->
  AddressBook.find n (w_book w) = None ->
  show_phone n w = (Ok "Contact not found!.", w)
  /\ show_birthday n w = (Ok "Contact not found!.", w)
  /\ (forall line rest, split line = n :: p :: rest ->
        add_birthday line w = (Ok "Contact not found!.", w))
  /\ (forall line rest, split line = n :: p :: rest ->
        PHONE_PATTERN_match p = true ->
        change_contact line w = (Ok "Contact not found!.", w)).
Proof.
  intros Hn Hf. unfold AddressBook.find in Hf.
  rewrite show_phone_run, show_birthday_run, (strip_no_blank n Hn), Hf.
  repeat split.
  - intros line rest Hs. now rewrite (add_birthday_run w line n p rest Hs), Hf.
  - intros line rest Hs Hp.
    now rewrite (change_contact_valid w line n p rest Hs Hp), Hf.
Qed.

End MoreHandlers.

(** ** Birthdays of contacts *)

Lemma ddmmyyyy_length s : ddmmyyyy s = true -> String.length s = 10%nat.
Proof.
  unfold ddmmyyyy.
  destruct s as [|d1 [|d2 [|h1 [|m1 [|m2 [|h2 y]]]]]]; try discriminate.
  intros H. apply andb_true_iff in H as [_ H].
  simpl. do 6 f_equal. now apply Nat.eqb_eq.
Qed.

(** What [add-birthday] does to the book with a date it accepts,
    whatever the disk: the record has the date when the handler is left,
    be it with the message or with the [OSError] of the write. *)
Lemma add_birthday_book {P : Pickle} {D : Disk} (w : world) args n s rest r d :
  split args = n :: s :: rest ->
  AddressBook.get n (w_book w) = Some r ->
  Birthday s = Ok d ->
  exists res w',
    @add_birthday P D args w = (res, w')
    /\ (writable D default_filename -> res = Ok "Birthday added!.")
    /\ w_book w' = AddressBook.setitem n (with_birthday d r) (w_book w).
Proof.
  intros Hs Hg Hb. unfold add_birthday. rewrite Hs. run. rewrite Hg. simpl.
  rewrite Hg. simpl. unfold Record_add_birthday. rewrite Hb. simpl.
  destruct (write_outcome default_filename _) eqn:Ew; eexists _, _;
    (split; [reflexivity|]); (split; [|reflexivity]);
    intros Hw; rewrite Hw in Ew; (reflexivity || discriminate).
Qed.

(** C9, as the code has it. When the date given to [add-birthday] is
    written [DD-MM-YYYY] with the digits [0-9] of ASCII, two for the day,
    two for the month and four for the year, is accepted, and its year is
    1000 or later, [show-birthday] shows that very text. This is so on
    every disk: [add-birthday] returns its message when the address book
    file can be written, and the record has the date also when the write
    fails. *)
Theorem birthday_round_trip (P : Pickle) (D : Disk) (L : Libc) (w : world)
    (args n s : string) (rest : list string) (r : Record_) (dt : date) :
  split args = n :: s :: rest ->
  AddressBook.find n (w_book w) = Some r ->
  ddmmyyyy s = true ->
  Birthday s = Ok dt ->
  1000 <= year dt ->
  exists res w',
    add_birthday args w = (res, w')
    /\ (writable D default_filename -> res = Ok "Birthday added!.")
    /\ show_birthday n w' = (Ok s, w').
Proof.
  intros Hs Hf Hshape Hb Hyear. unfold AddressBook.find in Hf.
  pose proof (ddmmyyyy_length s Hshape) as Hlen.
  assert (Hn : no_blank n = true)
    by (apply (split_no_blank args); rewrite Hs; now left).
  assert (Hnb : no_blank s = true)
    by (apply (split_no_blank args); rewrite Hs; right; now left).
  destruct (add_birthday_book w args n s rest r dt Hs Hf Hb)
    as (res & w' & E & Hres & Hbook).
  exists res, w'. split; [exact E|]. split; [exact Hres|].
  rewrite show_birthday_run, (strip_no_blank n Hn), Hbook, get_setitem_eq. simpl.
  now rewrite (strptime_strftime s dt (Birthday_Ok _ _ Hb) Hlen Hnb (or_intror Hyear)).
Qed.

Lemma birthday_round_trip_witness :
  exists res w',
    @add_birthday Codec.pickle reliable_disk "John 29-02-2024" john_world = (res, w')
    /\ (writable reliable_disk default_filename -> res = Ok "Birthday added!.")
    /\ @show_birthday glibc "John" w' = (Ok "29-02-2024", w').
Proof.
  apply (birthday_round_trip Codec.pickle reliable_disk glibc john_world "John 29-02-2024"
           "John" "29-02-2024" [] john (mkdate 2024 2 29));
    [reflexivity | reflexivity | reflexivity | reflexivity | simpl; lia].
Defined.

(** C9 as stated fails. ["1-2-2000"] parses, and what is shown for it is
    ["01-02-2000"], whatever the C library. With the C library of Linux,
    ["01-01-0999"] parses too, and what is shown for it is
    ["01-01-999"]. *)
Lemma birthday_unpadded_not_kept :
  Birthday "1-2-2000" = Ok (mkdate 2000 2 1)
  /\ (exists w',
        @add_birthday Codec.pickle reliable_disk "John 1-2-2000" john_world
          = (Ok "Birthday added!.", w')
        /\ @show_birthday glibc "John" w' = (Ok "01-02-2000", w')
        /\ @show_birthday padding_libc "John" w' = (Ok "01-02-2000", w'))
  /\ "01-02-2000" <> "1-2-2000"
  /\ Birthday "01-01-0999" = Ok (mkdate 999 1 1)
  /\ (exists w',
        @add_birthday Codec.pickle reliable_disk "John 01-01-0999" john_world
          = (Ok "Birthday added!.", w')
        /\ @show_birthday glibc "John" w' = (Ok "01-01-999", w'))
  /\ "01-01-999" <> "01-01-0999".
Proof.
  split; [reflexivity|]. split; [eexists; repeat split; reflexivity|].
  split; [discriminate|]. split; [reflexivity|].
  split; [eexists; split; reflexivity|discriminate].
Qed.

(** ** Messages for malformed lines *)

(** C6 at the line [add-birthday John]. [add] and [change] answer a line
    with one word with their guidance; [add_birthday] has no such test,
    its unpacking fails, and what comes back is the text of that error.
    The loop of [main] prints it. *)
Theorem add_birthday_one_word_message :
  @add_contact Codec.pickle reliable_disk "John" john_world
    = (Ok "Enter name and phone please", john_world)
  /\ @change_contact Codec.pickle reliable_disk "John" john_world
    = (Ok "Enter name and phone please", john_world)
  /\ @add_birthday Codec.pickle reliable_disk "John" john_world
    = (Ok "not enough values to unpack (expected at least 2, got 1)", john_world)
  /\ @main_step Codec.pickle reliable_disk glibc "add-birthday John" john_world
    = (Ok true,
       printing ["not enough values to unpack (expected at least 2, got 1)"]
         john_world).
Proof. repeat split; reflexivity. Qed.

(** * More of the program *)

(** ** More on the dictionary *)

Lemma setitem_setitem key r r0 book :
  AddressBook.setitem key r (AddressBook.setitem key r0 book)
  = AddressBook.setitem key r book.
Proof.
  induction book as [|[k r1] rest IH]; simpl.
  - now rewrite String.eqb_refl.
  - destruct (String.eqb k key) eqn:E; simpl; rewrite E; [reflexivity|].
    now rewrite IH.
Qed.

Lemma setitem_In key r' book k r :
  In (k, r) (AddressBook.setitem key r' book) ->
  (k = key /\ r = r') \/ In (k, r) book.
Proof.
  induction book as [|[k1 r1] rest IH]; simpl.
  - intros [[= <- <-]|[]]. now left.
  - destruct (String.eqb_spec k1 key) as [->|Hne]; simpl.
    + intros [[= <- <-]|H]; [now left|right; now right].
    + intros [H|H]; [right; now left|].
      destruct (IH H) as [?|?]; [now left|right; now right].
Qed.

Lemma get_In key r book : AddressBook.get key book = Some r -> In (key, r) book.
Proof.
  induction book as [|[k r1] rest IH]; simpl; [discriminate|].
  destruct (String.eqb_spec k key) as [->|Hne].
  - intros [= ->]. now left.
  - intros H. right. now apply IH.
Qed.

Lemma get_None_keys key book :
  AddressBook.get key book = None -> ~ In key (AddressBook.keys book).
Proof.
  induction book as [|[k r1] rest IH]; simpl; [tauto|].
  destruct (String.eqb_spec k key) as [->|Hne]; [discriminate|].
  intros H [Hk|Hk]; [contradiction|]. now apply IH.
Qed.

Lemma keys_setitem_new key r book :
  AddressBook.get key book = None ->
  AddressBook.keys (AddressBook.setitem key r book) = AddressBook.keys book ++ [key].
Proof.
  induction book as [|[k r1] rest IH]; simpl; [reflexivity|].
  destruct (String.eqb k key) eqn:E; simpl; [discriminate|].
  intros H. f_equal. now apply IH.
Qed.

Lemma book_all_setitem Q key r book :
  book_all Q book -> Q key r -> book_all Q (AddressBook.setitem key r book).
Proof.
  intros Hb Hr k r0 Hin. apply setitem_In in Hin as [[-> ->]|Hin]; auto.
Qed.

(** ** What one command does to the world *)

Lemma split_go_nonempty s : forall cur t, In t (split_go cur s) -> t <> "".
Proof.
  induction s as [|c s IH]; intros cur t; simpl.
  - destruct (String.eqb_spec cur ""); simpl; [tauto|]. now intros [<-|[]].
  - destruct (isspace c).
    + destruct (String.eqb_spec cur ""); simpl; [apply IH|].
      intros [<-|H]; [assumption|]. now apply (IH "").
    + apply IH.
Qed.

Lemma split_nonempty s t : In t (split s) -> t <> "".
Proof. apply split_go_nonempty. Qed.

Section Effects.

Context {P : Pickle} {L : Libc}.

Lemma add_contact_effect (w : world) args n p rest :
  split args = n :: p :: rest ->
  PHONE_PATTERN_match p = true ->
  add_contact args w =
    (Ok (match AddressBook.get n (w_book w) with
         | Some _ => "Contact updated."
         | None => "Contact added."
         end),
     saved (AddressBook.setitem n
              (with_phones (phones (record_or_new n (w_book w)) ++ [p])
                 (record_or_new n (w_book w)))
              (w_book w)) w).
Proof.
  intros Hs Hp. rewrite (add_contact_valid w args n p rest Hs Hp).
  unfold saved, with_phones, record_or_new.
  destruct (AddressBook.get n (w_book w)); [reflexivity|].
  now rewrite setitem_setitem.
Qed.

Lemma add_contact_invalid (w : world) args n p rest :
  split args = n :: p :: rest ->
  PHONE_PATTERN_match p = false ->
  add_contact args w = (Ok "Invalid phone number format.", w)
  /\ change_contact args w = (Ok "Invalid phone number format.", w).
Proof.
  intros Hs Hp. unfold add_contact, change_contact.
  rewrite (split_two_length _ _ _ _ Hs), Hs. run. rewrite Hp. simpl. auto.
Qed.

Lemma few_or_two (l : list string) :
  (length l <? 2)%nat = true \/ exists n p rest, l = n :: p :: rest.
Proof. destruct l as [|a [|b l]]; eauto. Qed.

Lemma add_contact_one_step w args : one_step w (add_contact args w).
Proof.
  destruct (few_or_two (split args)) as [H|(n & p & rest & Hs)].
  - rewrite (proj1 (add_contact_few w args H)). eexists. now left.
  - destruct (PHONE_PATTERN_match p) eqn:Hp.
    + rewrite (add_contact_effect w args n p rest Hs Hp). eexists. right.
      eexists. split; [|reflexivity]. apply step_add; [| |assumption].
      * apply (split_no_blank args). rewrite Hs. now left.
      * apply (split_nonempty args). rewrite Hs. now left.
    + rewrite (proj1 (add_contact_invalid w args n p rest Hs Hp)). eexists. now left.
Qed.

Lemma change_contact_one_step w args : one_step w (change_contact args w).
Proof.
  destruct (few_or_two (split args)) as [H|(n & p & rest & Hs)].
  - rewrite (proj2 (add_contact_few w args H)). eexists. now left.
  - destruct (PHONE_PATTERN_match p) eqn:Hp.
    + rewrite (change_contact_valid w args n p rest Hs Hp).
      destruct (AddressBook.get n (w_book w)) as [r|] eqn:Hg;
        [|eexists; now left].
      eexists. right. eexists. split; [|reflexivity]. now apply step_change.
    + rewrite (proj2 (add_contact_invalid w args n p rest Hs Hp)). eexists. now left.
Qed.

Lemma add_birthday_one_step w args : one_step w (add_birthday args w).
Proof.
  destruct (few_or_two (split args)) as [H|(n & p & rest & Hs)].
  - rewrite (add_birthday_few w args H). eexists. now left.
  - rewrite (add_birthday_run w args n p rest Hs).
    destruct (AddressBook.get n (w_book w)) as [r|] eqn:Hg; [|eexists; now left].
    destruct (Birthday p) as [d|e] eqn:Hb; [|eexists; now left].
    eexists. right. eexists. split; [|reflexivity]. now apply step_birthday with p.
Qed.

End Effects.

(** ** One turn of the loop *)

Lemma printing_nil w : printing [] w = w.
Proof. unfold printing. rewrite List.app_nil_r. now destruct w. Qed.

Lemma lstrip_cases s :
  lstrip s = "" \/ exists c t, lstrip s = String c t /\ isspace c = false.
Proof.
  induction s as [|c s IH]; simpl; [now left|].
  destruct (isspace c) eqn:Hc; [assumption|]. right. eauto.
Qed.

Lemma rstrip_head c t : isspace c = false -> rstrip (String c t) <> "".
Proof. intros Hc. simpl. destruct (rstrip t); [now rewrite Hc|discriminate]. Qed.

(** A line that is not blank has a first word. *)
Lemma split_max1_nonblank s :
  strip s <> "" -> exists c rest, split_max1 s = c :: rest /\ c <> "".
Proof.
  unfold strip, split_max1. intros H.
  destruct (lstrip_cases s) as [E|(c & t & E & Hc)]; [now rewrite E in H|].
  rewrite E. simpl. rewrite Hc. destruct (span_word t) as [w r]. simpl.
  destruct (lstrip r); eauto.
Qed.

Lemma command_of_blank s : strip s = "" -> command_of s = None.
Proof. intros H. unfold command_of. now rewrite H. Qed.

Lemma command_of_first s c rest :
  strip s <> "" -> split_max1 s = c :: rest -> command_of s = Some c.
Proof.
  intros H Hs. unfold command_of. rewrite Hs.
  now destruct (String.eqb_spec (strip s) "").
Qed.

Lemma add_days_raises n d e :
  add_days n d = Raise e -> exists msg, e = OverflowError msg.
Proof.
  revert d. induction n as [|n IH]; intros d; simpl; [discriminate|].
  destruct (next_day d) as [d'|e'] eqn:E; [apply IH|].
  intros [= <-]. unfold next_day in E.
  repeat match type of E with
         | (if ?c then _ else _) = _ => destruct c
         end; try discriminate. injection E as <-. eauto.
Qed.

Lemma upcoming_loop_raises t nw rs acc e :
  upcoming_loop t nw rs acc = Raise e -> exists msg, e = ValueError msg.
Proof.
  revert acc. induction rs as [|r rs IH]; intros acc; simpl; [discriminate|].
  destruct (birthday r) as [b|]; [|apply IH].
  destruct (date_replace_year b (year t)) as [d|e'] eqn:E.
  - destruct (_ && _); apply IH.
  - intros [= <-]. now apply date_new_raises in E.
Qed.

Section Turn.

Context {P : Pickle} {L : Libc}.

Lemma show_all_run w :
  exists lines, show_all w = (Ok tt, printing lines w).
Proof.
  unfold show_all, bind, get_book. destruct (w_book w) as [|kv book] eqn:E.
  - exists ["No contacts!."]. reflexivity.
  - rewrite print_all_run. eexists. reflexivity.
Qed.

(** The listing prints and returns, or fails as [today + 7 days] did. *)
Lemma show_upcoming_result w :
  (exists x lines, show_upcoming_birthdays w = (Ok x, printing lines w))
  \/ exists msg,
       show_upcoming_birthdays w = (Raise (OverflowError msg), w)
       /\ add_days 7 (w_today w) = Raise (OverflowError msg).
Proof.
  rewrite show_upcoming_run.
  destruct (add_days 7 (w_today w)) as [nw|e] eqn:Hnw.
  - left. destruct (upcoming_loop _ _ _ _) as [[|e0 l]|e] eqn:Hl.
    + eauto.
    + eauto.
    + apply upcoming_loop_raises in Hl as [msg ->]. simpl.
      exists (Some msg), []. now rewrite printing_nil.
  - right. apply add_days_raises in Hnw as Hm. destruct Hm as [msg ->]. eauto.
Qed.

(** What a line does: it prints; the commands that can change the book
    make at most one step of it and save it; the result says whether the
    loop goes on, unless [today + 7 days] does not exist. *)
Lemma main_step_effect line w :
  exists r lines,
    (main_step line w = (r, printing lines w)
     \/ (is_mutating line = true
         /\ exists book', book_step (w_book w) book'
              /\ main_step line w = (r, printing lines (saved book' w))))
    /\ (r = Ok (negb (is_quit line))
        \/ exists msg,
             r = Raise (OverflowError msg)
             /\ command_of line = Some "birthdays"
             /\ add_days 7 (w_today w) = Raise (OverflowError msg)).
Proof.
  assert (Hhandler : forall (h : string -> M string) args,
            one_step w (h args w) ->
            exists lines,
              (r <- h args ;; print r ;; ret true) w = (Ok true, printing lines w)
              \/ exists book', book_step (w_book w) book'
                   /\ (r <- h args ;; print r ;; ret true) w
                      = (Ok true, printing lines (saved book' w))).
  { intros h args [msg [E|(book' & Hstep & E)]]; unfold bind; rewrite E;
      exists [msg]; [now left|right; eauto]. }
  unfold main_step, is_quit, is_mutating.
  destruct (String.eqb_spec (strip line) "") as [Hb|Hb].
  { rewrite (command_of_blank _ Hb). eexists _, _. split; [left; reflexivity|now left]. }
  destruct (split_max1_nonblank line Hb) as (c & rest & Hs & _).
  rewrite (command_of_first _ _ _ Hb Hs), Hs. cbn [existsb].
  destruct (String.eqb_spec c "close") as [->|H1].
  { eexists _, _. split; [left; reflexivity|now left]. }
  destruct (String.eqb_spec c "exit") as [->|H2].
  { eexists _, _. split; [left; reflexivity|now left]. }
  destruct (String.eqb_spec c "hello") as [->|H3].
  { eexists _, _. split; [left; reflexivity|now left]. }
  destruct (String.eqb_spec c "add") as [->|H4].
  { cbn [orb]. destruct (Hhandler add_contact (join " " rest) (add_contact_one_step _ _))
      as (lines & [E|(b' & Hstep & E)]); rewrite E; eexists _, _;
      (split; [|now left]); [now left|right; eauto]. }
  destruct (String.eqb_spec c "change") as [->|H5].
  { cbn [orb]. destruct (Hhandler change_contact (join " " rest) (change_contact_one_step _ _))
      as (lines & [E|(b' & Hstep & E)]); rewrite E; eexists _, _;
      (split; [|now left]); [now left|right; eauto]. }
  destruct (String.eqb_spec c "phone") as [->|H6].
  { cbn [orb]. unfold bind. rewrite show_phone_run. eexists _, _.
    split; [left; reflexivity|now left]. }
  destruct (String.eqb_spec c "all") as [->|H7].
  { cbn [orb]. unfold bind. destruct (show_all_run w) as (lines & ->). eexists _, _.
    split; [left; reflexivity|now left]. }
  destruct (String.eqb_spec c "add-birthday") as [->|H8].
  { cbn [orb]. destruct (Hhandler add_birthday (join " " rest) (add_birthday_one_step _ _))
      as (lines & [E|(b' & Hstep & E)]); rewrite E; eexists _, _;
      (split; [|now left]); [now left|right; eauto]. }
  destruct (String.eqb_spec c "show-birthday") as [->|H9].
  { cbn [orb]. unfold bind. rewrite show_birthday_run. eexists _, _.
    split; [left; reflexivity|now left]. }
  destruct (String.eqb_spec c "birthdays") as [->|H10].
  { cbn [orb]. unfold bind.
    destruct (show_upcoming_result w) as [(x & lines & ->)|(msg & -> & Hnw)].
    - eexists _, _. split; [left; reflexivity|now left].
    - exists (Raise (OverflowError msg)), []. rewrite printing_nil.
      split; [now left|right; eauto]. }
  eexists _, _. split; [left; reflexivity|now left].
Qed.

End Turn.

(** ** What the book always is *)

Lemma NoDup_snoc {A} (l : list A) (x : A) :
  NoDup l -> ~ In x l -> NoDup (l ++ [x]).
Proof.
  intros Hl Hx. apply NoDup_app. split; [assumption|]. split.
  - intros y Hy Hin. apply list_elem_of_singleton in Hin. subst y.
    apply Hx. now apply list_elem_of_In.
  - apply NoDup_singleton.
Qed.

Lemma keys_setitem_NoDup key r book :
  NoDup (AddressBook.keys book) ->
  NoDup (AddressBook.keys (AddressBook.setitem key r book)).
Proof.
  intros H. destruct (AddressBook.get key book) as [r0|] eqn:Hg.
  - now rewrite (keys_setitem_present _ _ _ _ Hg).
  - rewrite (keys_setitem_new _ _ _ Hg). apply NoDup_snoc; [assumption|].
    now apply get_None_keys.
Qed.

Lemma Birthday_valid s d : Birthday s = Ok d -> valid_date d = true.
Proof.
  intros H. apply Birthday_Ok in H. unfold strptime in H.
  destruct (re_dmY s) as [|[[[dd m] y] rest] l]; [discriminate|].
  destruct (negb (String.eqb rest "")); [discriminate|].
  pose proof H as H'. apply date_new_Ok in H' as (-> & _).
  unfold valid_date. simpl. now rewrite H.
Qed.

Lemma book_step_wf book book' : wf_book book -> book_step book book' -> wf_book book'.
Proof.
  intros [Hnd Hall] Hstep. split.
  - destruct Hstep; now apply keys_setitem_NoDup.
  - destruct Hstep as [n p Hn Hne Hp|n p r Hg Hp|n s d r Hg Hb];
      apply book_all_setitem; try assumption; simpl.
    + split; [|auto]. unfold record_or_new.
      destruct (AddressBook.get n book) as [r0|] eqn:Hg; [|reflexivity].
      now apply (Hall n r0 (get_In _ _ _ Hg)).
    + apply (Hall n r (get_In _ _ _ Hg)).
    + apply (Hall n r (get_In _ _ _ Hg)).
Qed.

Lemma book_step_phones book book' :
  phones_valid book -> book_step book book' -> phones_valid book'.
Proof.
  intros Hall Hstep.
  destruct Hstep as [n p Hn Hne Hp|n p r Hg Hp|n s d r Hg Hb];
    apply book_all_setitem; try assumption; simpl.
  - intros q Hq. apply in_app_iff in Hq as [Hq|[<-|[]]]; [|assumption].
    unfold record_or_new in Hq.
    destruct (AddressBook.get n book) as [r0|] eqn:Hg; [|destruct Hq].
    now apply (Hall n r0 (get_In _ _ _ Hg)).
  - now intros q [<-|[]].
  - apply (Hall n r (get_In _ _ _ Hg)).
Qed.

Lemma book_step_birthdays book book' :
  birthdays_valid book -> book_step book book' -> birthdays_valid book'.
Proof.
  intros Hall Hstep.
  destruct Hstep as [n p Hn Hne Hp|n p r Hg Hp|n s d r Hg Hb];
    apply book_all_setitem; try assumption; simpl.
  - unfold record_or_new.
    destruct (AddressBook.get n book) as [r0|] eqn:Hg; [|discriminate].
    apply (Hall n r0 (get_In _ _ _ Hg)).
  - apply (Hall n r (get_In _ _ _ Hg)).
  - intros d' [= <-]. now apply Birthday_valid with s.
Qed.

(** The three together. *)
Lemma book_step_sound book book' :
  wf_book book /\ phones_valid book /\ birthdays_valid book ->
  book_step book book' ->
  wf_book book' /\ phones_valid book' /\ birthdays_valid book'.
Proof.
  intros (H1 & H2 & H3) Hstep. split; [|split].
  - now apply book_step_wf with book.
  - now apply book_step_phones with book.
  - now apply book_step_birthdays with book.
Qed.

Lemma empty_book_sound :
  wf_book AddressBook.empty /\ phones_valid AddressBook.empty
  /\ birthdays_valid AddressBook.empty.
Proof.
  split; [split; [constructor|intros k r []]|split; intros k r []].
Qed.

Lemma john_book_sound :
  wf_book (w_book john_world) /\ phones_valid (w_book john_world)
  /\ birthdays_valid (w_book john_world).
Proof.
  split; [split|split].
  - apply NoDup_singleton.
  - intros k r [[= <- <-]|[]]. repeat split. discriminate.
  - intros k r [[= <- <-]|[]] p [<-|[<-|[]]]; reflexivity.
  - intros k r [[= <- <-]|[]] d. discriminate.
Qed.

Section Invariants.

Context {P : Pickle} {L : Libc}.

(** Any property of the book that one step of the book keeps, a turn of
    the loop keeps. *)
Lemma main_step_book_invariant (I : AddressBook.t -> Prop) :
  (forall book book', I book -> book_step book book' -> I book') ->
  forall line w, I (w_book w) -> I (w_book (snd (main_step line w))).
Proof.
  intros HI line w Hw.
  destruct (main_step_effect line w)
    as (r & lines & [E|(_ & book' & Hstep & E)] & _); rewrite E; simpl; eauto.
Qed.

Lemma main_loop_nil w :
  main_loop [] w = (Raise EOFError, printing ["Enter a command: "] w).
Proof. reflexivity. Qed.

Lemma main_loop_cons line rest w :
  main_loop (line :: rest) w =
    match main_step line (printing ["Enter a command: "] w) with
    | (Ok true, w1) => main_loop rest w1
    | (Ok false, w1) => (Ok tt, w1)
    | (Raise e, w1) => (Raise e, w1)
    end.
Proof.
  cbn [main_loop]. unfold bind at 1. cbn [print]. fold (printing ["Enter a command: "] w).
  unfold bind at 1.
  destruct (main_step line (printing ["Enter a command: "] w)) as [[[|]|e] w1];
    reflexivity.
Qed.

Lemma main_loop_book_invariant (I : AddressBook.t -> Prop) :
  (forall book book', I book -> book_step book book' -> I book') ->
  forall inputs w, I (w_book w) -> I (w_book (snd (main_loop inputs w))).
Proof.
  intros HI inputs. induction inputs as [|line rest IH]; intros w Hw.
  - exact Hw.
  - rewrite main_loop_cons.
    pose proof (main_step_book_invariant I HI line (printing ["Enter a command: "] w) Hw)
      as Hs.
    destruct (main_step line (printing ["Enter a command: "] w)) as [[[|]|e] w1];
      simpl in *; auto.
Qed.

End Invariants.

Lemma main_run {P : Pickle} {L : Libc} inputs w :
  main inputs w =
    match load_data default_filename w with
    | (Ok book, w0) =>
        main_loop inputs (printing ["Welcome to the assistant bot!"] (with_book book w0))
    | (Raise e, w0) => (Raise e, w0)
    end.
Proof.
  unfold main. unfold bind at 1.
  destruct (load_data default_filename w) as [[book|e] w0]; reflexivity.
Qed.

(** X1. A turn of the loop keeps the book a dictionary in which every
    record is under its own name and every name is one word. *)
Theorem main_step_keeps_wf (P : Pickle) (L : Libc) (line : string) (w : world) :
  wf_book (w_book w) -> wf_book (w_book (snd (main_step line w))).
Proof. apply main_step_book_invariant. apply book_step_wf. Qed.

Lemma main_step_keeps_wf_witness :
  wf_book (w_book (snd (@main_step Codec.pickle reliable_disk glibc "add Ann 0931234567" john_world))).
Proof.
  apply (main_step_keeps_wf Codec.pickle glibc "add Ann 0931234567" john_world).
  exact (proj1 john_book_sound).
Defined.

(** X2. A turn of the loop keeps every phone of the book a match of
    [PHONE_PATTERN]. *)
Theorem main_step_keeps_phones_valid (P : Pickle) (L : Libc) (line : string) (w : world) :
  phones_valid (w_book w) -> phones_valid (w_book (snd (main_step line w))).
Proof. apply main_step_book_invariant. apply book_step_phones. Qed.

Lemma main_step_keeps_phones_valid_witness :
  phones_valid
    (w_book (snd (@main_step Codec.pickle reliable_disk glibc "change John 0931234567" john_world))).
Proof.
  apply (main_step_keeps_phones_valid Codec.pickle glibc "change John 0931234567"
           john_world).
  exact (proj1 (proj2 john_book_sound)).
Defined.

(** X3. A turn of the loop keeps every birthday of the book a date of
    the calendar. *)
Theorem main_step_keeps_birthdays_valid (P : Pickle) (L : Libc)
    (line : string) (w : world) :
  birthdays_valid (w_book w) -> birthdays_valid (w_book (snd (main_step line w))).
Proof. apply main_step_book_invariant. apply book_step_birthdays. Qed.

Lemma main_step_keeps_birthdays_valid_witness :
  birthdays_valid
    (w_book (snd (@main_step Codec.pickle reliable_disk glibc "add-birthday John 29-02-2024"
                    john_world))).
Proof.
  apply (main_step_keeps_birthdays_valid Codec.pickle glibc
           "add-birthday John 29-02-2024" john_world).
  exact (proj2 (proj2 john_book_sound)).
Defined.

(** X4. Started without a file, [main] ends, however it ends and
    whatever the input was, with a book that is a dictionary of one-word
    names, valid phones and valid birthdays. *)
Theorem main_builds_sound_book (P : Pickle) (L : Libc)
    (inputs : list string) (w : world) :
  w_fs w !! default_filename = None ->
  wf_book (w_book (snd (main inputs w)))
  /\ phones_valid (w_book (snd (main inputs w)))
  /\ birthdays_valid (w_book (snd (main inputs w))).
Proof.
  intros Hf. rewrite main_run, (load_data_missing _ _ _ Hf).
  apply (main_loop_book_invariant
           (fun b => wf_book b /\ phones_valid b /\ birthdays_valid b)).
  - apply book_step_sound.
  - exact empty_book_sound.
Qed.

Lemma main_builds_sound_book_witness :
  wf_book (w_book (snd (@main Codec.pickle reliable_disk glibc
                          ["add Bob 0502223344"; "add-birthday Bob 10-01-1990"; "exit"]
                          empty_world)))
  /\ phones_valid (w_book (snd (@main Codec.pickle reliable_disk glibc
                          ["add Bob 0502223344"; "add-birthday Bob 10-01-1990"; "exit"]
                          empty_world)))
  /\ birthdays_valid (w_book (snd (@main Codec.pickle reliable_disk glibc
                          ["add Bob 0502223344"; "add-birthday Bob 10-01-1990"; "exit"]
                          empty_world))).
Proof.
  apply (main_builds_sound_book Codec.pickle glibc
           ["add Bob 0502223344"; "add-birthday Bob 10-01-1990"; "exit"] empty_world).
  reflexivity.
Defined.

(** ** The book and its file *)

Lemma load_data_result {P : Pickle} f w :
  load_data f w = (fst (load_data f w), w).
Proof.
  destruct (w_fs w !! f) as [content|] eqn:E.
  - rewrite (load_data_present _ _ _ _ E).
    destruct (pickle_loads content) as [b|[]]; reflexivity.
  - now rewrite (load_data_missing _ _ _ E).
Qed.

Lemma load_data_same_files {P : Pickle} f w1 w2 :
  w_fs w1 = w_fs w2 -> fst (load_data f w1) = fst (load_data f w2).
Proof.
  intros H. destruct (w_fs w2 !! f) as [content|] eqn:E.
  - rewrite (load_data_present _ w2 _ _ E).
    rewrite <- H in E. rewrite (load_data_present _ w1 _ _ E).
    destruct (pickle_loads content) as [b|[]]; reflexivity.
  - rewrite (load_data_missing _ w2 _ E).
    rewrite <- H in E. now rewrite (load_data_missing _ w1 _ E).
Qed.

Lemma synced_iff {P : Pickle} w :
  synced w <-> fst (load_data default_filename w) = Ok (w_book w).
Proof.
  unfold synced. rewrite load_data_result at 1. split.
  - now intros [= ->].
  - now intros ->.
Qed.

Lemma synced_printing {P : Pickle} lines w : synced w -> synced (printing lines w).
Proof.
  rewrite !synced_iff. intros H.
  now rewrite (load_data_same_files _ (printing lines w) w).
Qed.

Lemma synced_saved {P : Pickle} book w : pickle_roundtrip P -> synced (saved book w).
Proof.
  intros HP. apply synced_iff.
  rewrite (load_data_present _ (saved book w) default_filename (pickle_dumps book))
    by apply lookup_insert_eq.
  now rewrite (HP book).
Qed.

Lemma main_step_synced {P : Pickle} {L : Libc} line w :
  pickle_roundtrip P -> synced w -> synced (snd (main_step line w)).
Proof.
  intros HP Hw.
  destruct (main_step_effect line w)
    as (r & lines & [E|(_ & book' & Hstep & E)] & _); rewrite E; simpl.
  - now apply synced_printing.
  - apply synced_printing. now apply synced_saved.
Qed.

Lemma main_loop_synced {P : Pickle} {L : Libc} inputs :
  pickle_roundtrip P -> forall w, synced w -> synced (snd (main_loop inputs w)).
Proof.
  intros HP. induction inputs as [|line rest IH]; intros w Hw.
  - rewrite main_loop_nil. now apply synced_printing.
  - rewrite main_loop_cons.
    pose proof (main_step_synced line (printing ["Enter a command: "] w) HP
                  (synced_printing _ _ Hw)) as Hs.
    destruct (main_step line (printing ["Enter a command: "] w)) as [[[|]|e] w1];
      simpl in *; auto.
Qed.



(** X6. When [load_data] succeeds at the start, [main] stops, by a
    command or at the end of the input, in a world whose file loads as
    the book it had in memory: the next run starts from that book. *)
Theorem main_leaves_synced (P : Pickle) (HP : pickle_roundtrip P) (L : Libc)
    (inputs : list string) (w : world) (book0 : AddressBook.t) :
  fst (load_data default_filename w) = Ok book0 ->
  load_data default_filename (snd (main inputs w))
  = (Ok (w_book (snd (main inputs w))), snd (main inputs w)).
Proof.
  intros H0. rewrite main_run, (load_data_result default_filename w), H0.
  apply (main_loop_synced inputs HP). apply synced_printing, synced_iff.
  now rewrite (load_data_same_files _ (with_book book0 w) w).
Qed.

Lemma main_leaves_synced_witness :
  @load_data Codec.pickle reliable_disk default_filename
    (snd (@main Codec.pickle reliable_disk glibc ["add Bob 0502223344"; "change Bob 0931234567"]
            empty_world))
  = (Ok (w_book (snd (@main Codec.pickle reliable_disk glibc
                        ["add Bob 0502223344"; "change Bob 0931234567"] empty_world))),
     snd (@main Codec.pickle reliable_disk glibc ["add Bob 0502223344"; "change Bob 0931234567"]
            empty_world)).
Proof.
  apply (main_leaves_synced Codec.pickle CodecFacts.loads_dumps glibc
           ["add Bob 0502223344"; "change Bob 0931234567"] empty_world AddressBook.empty).
  reflexivity.
Defined.

(** X7. A turn of the loop never changes the date, never takes back
    what was printed, and never touches a file other than the address
    book file. *)
Theorem main_step_frame (P : Pickle) (L : Libc) (line : string) (w : world) :
  w_today (snd (main_step line w)) = w_today w
  /\ (exists lines, w_out (snd (main_step line w)) = w_out w ++ lines)
  /\ forall f, f <> default_filename ->
       w_fs (snd (main_step line w)) !! f = w_fs w !! f.
Proof.
  destruct (main_step_effect line w)
    as (r & lines & [E|(_ & book' & Hstep & E)] & _); rewrite E; simpl.
  - eauto.
  - split; [reflexivity|]. split; [eauto|].
    intros f Hf. apply lookup_insert_ne. congruence.
Qed.

(** X9. Only [add], [change] and [add-birthday] can change the book or
    a file: after any other line both are what they were. *)
Theorem other_commands_read_only (P : Pickle) (L : Libc) (line : string) (w : world) :
  is_mutating line = false ->
  w_book (snd (main_step line w)) = w_book w
  /\ w_fs (snd (main_step line w)) = w_fs w.
Proof.
  intros Hm.
  destruct (main_step_effect line w)
    as (r & lines & [E|(Hm' & _)] & _); [|congruence].
  rewrite E. auto.
Qed.

Lemma other_commands_read_only_witness :
  w_book (snd (@main_step Codec.pickle reliable_disk glibc "phone John" john_world))
    = w_book john_world
  /\ w_fs (snd (@main_step Codec.pickle reliable_disk glibc "phone John" john_world))
    = w_fs john_world.
Proof.
  apply (other_commands_read_only Codec.pickle glibc "phone John" john_world).
  reflexivity.
Defined.

(** ** How the loop can end *)

(** A week from a day before the year 9999 exists. *)
Lemma add_days_Ok n : forall d,
  (n <= 28)%nat ->
  year d < 9999
  \/ (year d = 9999 /\ month d = 1 /\ 1 <= day d /\ day d + Z.of_nat n <= 28) ->
  exists d', add_days n d = Ok d'.
Proof.
  induction n as [|n IH]; intros d Hn Hd; simpl; [eauto|].
  assert (Hnext : exists d1, next_day d = Ok d1
            /\ (year d1 < 9999
                \/ (year d1 = 9999 /\ month d1 = 1 /\ 1 <= day d1
                    /\ day d1 + Z.of_nat n <= 28))).
  { unfold next_day, MAXYEAR. destruct Hd as [Hy|(Hy & Hm & Hd1 & Hd2)].
    - destruct (day d <? days_in_month (year d) (month d));
        [eexists; split; [reflexivity|now left]|].
      destruct (month d <? 12); [eexists; split; [reflexivity|now left]|].
      destruct (Z.ltb_spec (year d) 9999); [|lia].
      eexists. split; [reflexivity|]. simpl.
      destruct (Z.eq_dec (year d + 1) 9999); [right|left]; lia.
    - rewrite Hy, Hm. change (days_in_month 9999 1) with 31.
      destruct (Z.ltb_spec (day d) 31); [|lia].
      eexists. split; [reflexivity|]. right. simpl. lia. }
  destruct Hnext as (d1 & -> & Hd1). apply IH; [lia|assumption].
Qed.

Section Ending.

Context {P : Pickle} {L : Libc}.


Lemma main_step_result line w :
  year (w_today w) < 9999 -> fst (main_step line w) = Ok (negb (is_quit line)).
Proof.
  intros Hy.
  destruct (main_step_effect line w) as (r & lines & HE & [->|(msg & -> & _ & Hnw)]).
  - now destruct HE as [E|(_ & book' & _ & E)]; rewrite E.
  - destruct (add_days_Ok 7 (w_today w)) as [d' Hd']; [lia|now left|congruence].
Qed.

Lemma main_step_quit line w :
  is_quit line = true -> fst (main_step line w) = Ok false.
Proof.
  intros Hq.
  destruct (main_step_effect line w) as (r & lines & HE & [->|(msg & -> & Hc & _)]).
  - destruct HE as [E|(_ & book' & _ & E)]; rewrite E; simpl; now rewrite Hq.
  - unfold is_quit in Hq. rewrite Hc in Hq. discriminate.
Qed.


Lemma main_loop_after_quit l1 q l2 : forall w,
  is_quit q = true -> main_loop (l1 ++ q :: l2) w = main_loop (l1 ++ [q]) w.
Proof.
  intros w Hq. revert w. induction l1 as [|line l1 IH]; intros w; simpl app.
  - rewrite !main_loop_cons.
    pose proof (main_step_quit q (printing ["Enter a command: "] w) Hq) as Hr.
    destruct (main_step q (printing ["Enter a command: "] w)) as [r w1].
    simpl in Hr. now subst r.
  - rewrite !main_loop_cons.
    destruct (main_step line (printing ["Enter a command: "] w)) as [[[|]|e] w1];
      auto.
Qed.

End Ending.

(** ** Disks that fail

    On a disk that lets the address book file be written, the handlers,
    a turn of the loop and the loop do what they do on [reliable_disk]. *)

Section AnyDisk.

Context {P : Pickle} {D : Disk} {L : Libc}.




(** The write at the end of a handler: it goes through, or its [OSError]
    leaves the handler. *)
Ltac write_cases :=
  match goal with
  | |- context [write_outcome ?f ?c] =>
      let Ew := fresh "Ew" in
      destruct (write_outcome f c) eqn:Ew;
      [left; reflexivity
      |right; eexists _, _; split; [reflexivity|split; [reflexivity|]];
       intros Hw; rewrite Hw in Ew; discriminate ..]
  end.

(** On any disk [add] does what it does on [reliable_disk], or the
    write is refused and its [OSError] leaves the handler: [input_error]
    does not catch it. *)
Lemma add_contact_any args w :
  @add_contact P D args w = @add_contact P reliable_disk args w
  \/ exists msg w', @add_contact P D args w = (Raise (OSError msg), w')
       /\ w_today w' = w_today w /\ ~ writable D default_filename.
Proof.
  unfold add_contact. destruct (split args) as [|n [|p rest]]; try (left; reflexivity).
  run. unfold Record_add_phone.
  destruct (PHONE_PATTERN_match p); simpl; [|left; reflexivity].
  destruct (AddressBook.get n (w_book w)) as [r|] eqn:Hg; simpl;
    rewrite ?Hg, ?get_setitem_eq; simpl; write_cases.
Qed.

Lemma change_contact_any args w :
  @change_contact P D args w = @change_contact P reliable_disk args w
  \/ exists msg w', @change_contact P D args w = (Raise (OSError msg), w')
       /\ w_today w' = w_today w /\ ~ writable D default_filename.
Proof.
  unfold change_contact. destruct (split args) as [|n [|p rest]]; try (left; reflexivity).
  run. destruct (PHONE_PATTERN_match p); simpl; [|left; reflexivity].
  destruct (AddressBook.get n (w_book w)) as [r|] eqn:Hg; simpl;
    rewrite ?Hg; simpl; [write_cases|left; reflexivity].
Qed.

Lemma add_birthday_any args w :
  @add_birthday P D args w = @add_birthday P reliable_disk args w
  \/ exists msg w', @add_birthday P D args w = (Raise (OSError msg), w')
       /\ w_today w' = w_today w /\ ~ writable D default_filename.
Proof.
  unfold add_birthday. destruct (split args) as [|n [|s rest]]; try (left; reflexivity).
  run. destruct (AddressBook.get n (w_book w)) as [r|] eqn:Hg; simpl;
    rewrite ?Hg; simpl; [|left; reflexivity].
  unfold Record_add_birthday. destruct (Birthday s) as [d|e]; simpl;
    [write_cases|left; reflexivity].
Qed.

Lemma main_step_any line w :
  @main_step P D L line w = @main_step P reliable_disk L line w
  \/ exists msg w', @main_step P D L line w = (Raise (OSError msg), w')
       /\ w_today w' = w_today w /\ ~ writable D default_filename.
Proof.
  unfold main_step. destruct (String.eqb (strip line) ""); [now left|].
  destruct (split_max1 line) as [|c rest]; [now left|].
  repeat match goal with
         | |- context [if ?c then _ else _] => destruct c
         end; try (left; reflexivity); unfold bind.
  - destruct (add_contact_any (join " " rest) w) as [->|(msg & w' & -> & H)];
      [now left|right; eauto].
  - destruct (change_contact_any (join " " rest) w) as [->|(msg & w' & -> & H)];
      [now left|right; eauto].
  - destruct (add_birthday_any (join " " rest) w) as [->|(msg & w' & -> & H)];
      [now left|right; eauto].
Qed.




Hypothesis Hw : writable D default_filename.

Lemma add_contact_writable args w :
  @add_contact P D args w = @add_contact P reliable_disk args w.
Proof. now destruct (add_contact_any args w) as [E|(? & ? & _ & _ & H)]. Qed.

Lemma change_contact_writable args w :
  @change_contact P D args w = @change_contact P reliable_disk args w.
Proof. now destruct (change_contact_any args w) as [E|(? & ? & _ & _ & H)]. Qed.

Lemma add_birthday_writable args w :
  @add_birthday P D args w = @add_birthday P reliable_disk args w.
Proof. now destruct (add_birthday_any args w) as [E|(? & ? & _ & _ & H)]. Qed.

Lemma main_step_writable line w :
  @main_step P D L line w = @main_step P reliable_disk L line w.
Proof. now destruct (main_step_any line w) as [E|(? & ? & _ & _ & H)]. Qed.


End AnyDisk.

(** X8. On a disk that lets the address book file be written: when a
    turn of the loop changes the book or a file, then after the turn the
    address book file holds the pickle of the book as the turn left it,
    and every other file is what it was. (A turn can also write the file
    for a book it left as it was: [change] to the phone a record has.) *)
Theorem main_step_saves_changes (P : Pickle) (D : Disk) (L : Libc)
    (line : string) (w : world) :
  writable D default_filename ->
  w_book (snd (main_step line w)) <> w_book w
  \/ w_fs (snd (main_step line w)) <> w_fs w ->
  w_fs (snd (main_step line w))
  = <[default_filename := pickle_dumps (w_book (snd (main_step line w)))]> (w_fs w).
Proof.
  intros Hw. rewrite (main_step_writable Hw).
  destruct (main_step_effect line w)
    as (r & lines & [E|(_ & book' & Hstep & E)] & _); rewrite E; simpl.
  - intros [H|H]; now destruct H.
  - reflexivity.
Qed.

Lemma main_step_saves_changes_witness :
  w_fs (snd (@main_step Codec.pickle reliable_disk glibc "add Ann 0931234567" john_world))
  = <[default_filename :=
        @pickle_dumps Codec.pickle
          (w_book (snd (@main_step Codec.pickle reliable_disk glibc
                          "add Ann 0931234567" john_world)))]>
      (w_fs john_world).
Proof.
  apply (main_step_saves_changes Codec.pickle reliable_disk glibc
           "add Ann 0931234567" john_world).
  - intros content. reflexivity.
  - left. simpl. discriminate.
Defined.

(** X10. On a disk that lets the address book file be written, and as
    long as today is before the year 9999, no line makes a turn of the
    loop raise: it returns, and says to stop exactly when the first word
    of the line is [close] or [exit]. *)
Theorem main_step_never_raises (P : Pickle) (D : Disk) (L : Libc)
    (line : string) (w : world) :
  writable D default_filename ->
  year (w_today w) < 9999 ->
  fst (main_step line w) = Ok (negb (is_quit line)).
Proof. intros Hw Hy. rewrite (main_step_writable Hw). now apply main_step_result. Qed.

Lemma main_step_never_raises_witness :
  fst (@main_step Codec.pickle reliable_disk glibc "add-birthday John 31-02-2000" john_world)
  = Ok (negb (is_quit "add-birthday John 31-02-2000")).
Proof.
  apply (main_step_never_raises Codec.pickle reliable_disk glibc
           "add-birthday John 31-02-2000" john_world).
  - intros content. reflexivity.
  - simpl. lia.
Defined.




(** X11. When the day a week from today does not exist, the command
    [birthdays] raises the [OverflowError] of the addition: [input_error]
    lets it through, nothing is printed and the loop of [main] is
    left. *)
Theorem birthdays_overflow_raises (P : Pickle) (L : Libc)
    (line : string) (w : world) (e : exn) :
  command_of line = Some "birthdays" ->
  add_days 7 (w_today w) = Raise e ->
  main_step line w = (Raise e, w).
Proof.
  intros Hc Hnw. unfold command_of in Hc. unfold main_step.
  destruct (String.eqb (strip line) ""); [discriminate|].
  destruct (split_max1 line) as [|c rest]; [discriminate|].
  injection Hc as ->. cbn [existsb String.eqb Ascii.eqb Bool.eqb orb andb].
  unfold bind. rewrite show_upcoming_run, Hnw.
  apply add_days_raises in Hnw as [msg ->]. reflexivity.
Qed.

Lemma birthdays_overflow_raises_witness :
  @main_step Codec.pickle reliable_disk glibc "birthdays" last_week_world
  = (Raise (OverflowError "date value out of range"), last_week_world).
Proof.
  apply (birthdays_overflow_raises Codec.pickle glibc "birthdays" last_week_world);
    reflexivity.
Defined.



(** X13. The lines after one that starts with [close] or [exit] are
    never looked at. *)
Theorem main_ignores_input_after_quit (P : Pickle) (L : Libc)
    (l1 : list string) (q : string) (l2 : list string) (w : world) :
  is_quit q = true ->
  main (l1 ++ q :: l2) w = main (l1 ++ [q]) w.
Proof.
  intros Hq. rewrite !main_run.
  destruct (load_data default_filename w) as [[book|e] w0]; [|reflexivity].
  now apply main_loop_after_quit.
Qed.

Lemma main_ignores_input_after_quit_witness :
  @main Codec.pickle reliable_disk glibc (["add Bob 0502223344"] ++ "exit now" :: ["add Ann 0931234567"])
    empty_world
  = @main Codec.pickle reliable_disk glibc (["add Bob 0502223344"] ++ ["exit now"]) empty_world.
Proof.
  apply (main_ignores_input_after_quit Codec.pickle glibc ["add Bob 0502223344"]
           "exit now" ["add Ann 0931234567"] empty_world).
  reflexivity.
Defined.

(** X14. A file that is there and that [pickle] cannot read is fatal
    for [main]: it raises what [pickle] raised before it prints or reads
    anything. *)
Theorem main_unreadable_file_fatal (P : Pickle) (L : Libc)
    (inputs : list string) (w : world) (content : list Byte.byte) (e : exn) :
  w_fs w !! default_filename = Some content ->
  pickle_loads content = Raise e ->
  e <> FileNotFoundError ->
  main inputs w = (Raise e, w).
Proof.
  intros Hf He Hne. rewrite main_run, (load_data_present _ _ _ _ Hf), He.
  destruct e; try reflexivity. contradiction.
Qed.

Lemma main_unreadable_file_fatal_witness :
  @main Codec.pickle reliable_disk glibc ["add Bob 0502223344"; "exit"] empty_file_world
  = (Raise EOFError, empty_file_world).
Proof.
  apply (main_unreadable_file_fatal Codec.pickle glibc ["add Bob 0502223344"; "exit"]
           empty_file_world []); [reflexivity|reflexivity|discriminate].
Defined.

(** ** More on the handlers *)

(** X15. [add] for a name the book has appends the phone to the phones
    of that record and answers [Contact updated.]; the record keeps its
    name and birthday, every other name finds what it found, and the
    names keep their order. *)
Theorem add_appends_phone (P : Pickle) (w : world)
    (args n p : string) (rest : list string) (r : Record_) :
  split args = n :: p :: rest ->
  PHONE_PATTERN_match p = true ->
  AddressBook.find n (w_book w) = Some r ->
  exists w',
    add_contact args w = (Ok "Contact updated.", w')
    /\ AddressBook.find n (w_book w')
       = Some {| name := name r; phones := phones r ++ [p]; birthday := birthday r |}
    /\ (forall k, k <> n ->
          AddressBook.find k (w_book w') = AddressBook.find k (w_book w))
    /\ AddressBook.keys (w_book w') = AddressBook.keys (w_book w).
Proof.
  intros Hs Hp Hf. unfold AddressBook.find in *.
  rewrite (add_contact_effect w args n p rest Hs Hp). unfold record_or_new.
  rewrite Hf. eexists. split; [reflexivity|]. simpl.
  split; [apply get_setitem_eq|]. split.
  - intros k Hk. apply get_setitem_ne. congruence.
  - now apply keys_setitem_present with r.
Qed.

Lemma add_appends_phone_witness :
  exists w',
    @add_contact Codec.pickle reliable_disk "John 0931234567" john_world = (Ok "Contact updated.", w')
    /\ AddressBook.find "John" (w_book w')
       = Some {| name := "John";
                 phones := ["0501234567"; "0671234567"] ++ ["0931234567"];
                 birthday := None |}
    /\ (forall k, k <> "John" ->
          AddressBook.find k (w_book w') = AddressBook.find k (w_book john_world))
    /\ AddressBook.keys (w_book w') = AddressBook.keys (w_book john_world).
Proof.
  apply (add_appends_phone Codec.pickle john_world "John 0931234567" "John"
           "0931234567" [] john); reflexivity.
Defined.

(** X16. [add] for a name the book does not have answers
    [Contact added.] and puts a record with that name, that one phone and
    no birthday at the end of the book; every other name finds what it
    found. *)
Theorem add_creates_record (P : Pickle) (w : world)
    (args n p : string) (rest : list string) :
  split args = n :: p :: rest ->
  PHONE_PATTERN_match p = true ->
  AddressBook.find n (w_book w) = None ->
  exists w',
    add_contact args w = (Ok "Contact added.", w')
    /\ AddressBook.find n (w_book w')
       = Some {| name := n; phones := [p]; birthday := None |}
    /\ (forall k, k <> n ->
          AddressBook.find k (w_book w') = AddressBook.find k (w_book w))
    /\ AddressBook.keys (w_book w') = AddressBook.keys (w_book w) ++ [n].
Proof.
  intros Hs Hp Hf. unfold AddressBook.find in *.
  rewrite (add_contact_effect w args n p rest Hs Hp). unfold record_or_new.
  rewrite Hf. eexists. split; [reflexivity|]. simpl.
  split; [apply get_setitem_eq|]. split.
  - intros k Hk. apply get_setitem_ne. congruence.
  - now apply keys_setitem_new.
Qed.

Lemma add_creates_record_witness :
  exists w',
    @add_contact Codec.pickle reliable_disk "Ann 0931234567" john_world = (Ok "Contact added.", w')
    /\ AddressBook.find "Ann" (w_book w')
       = Some {| name := "Ann"; phones := ["0931234567"]; birthday := None |}
    /\ (forall k, k <> "Ann" ->
          AddressBook.find k (w_book w') = AddressBook.find k (w_book john_world))
    /\ AddressBook.keys (w_book w') = AddressBook.keys (w_book john_world) ++ ["Ann"].
Proof.
  apply (add_creates_record Codec.pickle john_world "Ann 0931234567" "Ann"
           "0931234567" []); reflexivity.
Defined.

(** X17. [add-birthday] with a date that parses, for a name the book
    has, answers [Birthday added!.] and makes that date the birthday of
    the record, in place of the one it had; the phones stay, every other
    name finds what it found, and the names keep their order. *)
Theorem add_birthday_sets_birthday (P : Pickle) (w : world)
    (args n s : string) (rest : list string) (r : Record_) (d : date) :
  split args = n :: s :: rest ->
  AddressBook.find n (w_book w) = Some r ->
  Birthday s = Ok d ->
  exists w',
    add_birthday args w = (Ok "Birthday added!.", w')
    /\ AddressBook.find n (w_book w')
       = Some {| name := name r; phones := phones r; birthday := Some d |}
    /\ (forall k, k <> n ->
          AddressBook.find k (w_book w') = AddressBook.find k (w_book w))
    /\ AddressBook.keys (w_book w') = AddressBook.keys (w_book w).
Proof.
  intros Hs Hf Hb. unfold AddressBook.find in *.
  rewrite (add_birthday_run w args n s rest Hs), Hf, Hb.
  eexists. split; [reflexivity|]. simpl.
  split; [apply get_setitem_eq|]. split.
  - intros k Hk. apply get_setitem_ne. congruence.
  - now apply keys_setitem_present with r.
Qed.

Lemma add_birthday_sets_birthday_witness :
  exists w',
    @add_birthday Codec.pickle reliable_disk "Bob 1-3-2001" leap_world = (Ok "Birthday added!.", w')
    /\ AddressBook.find "Bob" (w_book w')
       = Some {| name := "Bob"; phones := ["0502223344"];
                 birthday := Some (mkdate 2001 3 1) |}
    /\ (forall k, k <> "Bob" ->
          AddressBook.find k (w_book w') = AddressBook.find k (w_book leap_world))
    /\ AddressBook.keys (w_book w') = AddressBook.keys (w_book leap_world).
Proof.
  apply (add_birthday_sets_birthday Codec.pickle leap_world "Bob 1-3-2001" "Bob"
           "1-3-2001" [] bob (mkdate 2001 3 1)); reflexivity.
Defined.

(** X18. [add-birthday] with a date that does not parse, for a name the
    book has, answers with the message of [Birthday] and leaves the book
    and the files as they were. *)
Theorem add_birthday_invalid_date (P : Pickle) (w : world)
    (args n s : string) (rest : list string) (r : Record_) (e : exn) :
  split args = n :: s :: rest ->
  AddressBook.find n (w_book w) = Some r ->
  Birthday s = Raise e ->
  add_birthday args w = (Ok "Invalid date format. Use DD-MM-YYYY", w).
Proof.
  intros Hs Hf Hb. unfold AddressBook.find in *.
  now rewrite (add_birthday_run w args n s rest Hs), Hf, Hb.
Qed.

Lemma add_birthday_invalid_date_witness :
  @add_birthday Codec.pickle reliable_disk "John 31-02-2000" john_world
  = (Ok "Invalid date format. Use DD-MM-YYYY", john_world).
Proof.
  apply (add_birthday_invalid_date Codec.pickle john_world "John 31-02-2000" "John"
           "31-02-2000" [] john (ValueError "Invalid date format. Use DD-MM-YYYY"));
    reflexivity.
Defined.

(** X19. [add], [change] and [add-birthday] look at the first two words
    of the line only: two lines with the same first two words do the
    same. *)
Theorem handlers_ignore_more_words (P : Pickle) (w : world)
    (args args' n p : string) (rest rest' : list string) :
  split args = n :: p :: rest ->
  split args' = n :: p :: rest' ->
  add_contact args w = add_contact args' w
  /\ change_contact args w = change_contact args' w
  /\ add_birthday args w = add_birthday args' w.
Proof.
  intros Hs Hs'. split; [|split].
  - destruct (PHONE_PATTERN_match p) eqn:Hp.
    + now rewrite (add_contact_valid w args n p rest Hs Hp),
        (add_contact_valid w args' n p rest' Hs' Hp).
    + now rewrite (proj1 (add_contact_invalid w args n p rest Hs Hp)),
        (proj1 (add_contact_invalid w args' n p rest' Hs' Hp)).
  - destruct (PHONE_PATTERN_match p) eqn:Hp.
    + now rewrite (change_contact_valid w args n p rest Hs Hp),
        (change_contact_valid w args' n p rest' Hs' Hp).
    + now rewrite (proj2 (add_contact_invalid w args n p rest Hs Hp)),
        (proj2 (add_contact_invalid w args' n p rest' Hs' Hp)).
  - now rewrite (add_birthday_run w args n p rest Hs),
      (add_birthday_run w args' n p rest' Hs').
Qed.

Lemma handlers_ignore_more_words_witness :
  @add_contact Codec.pickle reliable_disk "Ann 0931234567 at home" john_world
    = @add_contact Codec.pickle reliable_disk "Ann 0931234567" john_world
  /\ @change_contact Codec.pickle reliable_disk "Ann 0931234567 at home" john_world
    = @change_contact Codec.pickle reliable_disk "Ann 0931234567" john_world
  /\ @add_birthday Codec.pickle reliable_disk "Ann 0931234567 at home" john_world
    = @add_birthday Codec.pickle reliable_disk "Ann 0931234567" john_world.
Proof.
  apply (handlers_ignore_more_words Codec.pickle john_world "Ann 0931234567 at home"
           "Ann 0931234567" "Ann" "0931234567" ["at"; "home"] []); reflexivity.
Defined.

(** X20. In a book whose names are the names of its records and one
    word each, [phone] and [show-birthday] with a text that, stripped,
    still has a blank in it answer [Contact not found!.]: they look the
    whole text up as one name. *)
Theorem lookup_with_blank_not_found (w : world) (L : Libc) (q : string) :
  wf_book (w_book w) ->
  no_blank (strip q) = false ->
  show_phone q w = (Ok "Contact not found!.", w)
  /\ show_birthday q w = (Ok "Contact not found!.", w).
Proof.
  intros [_ Hall] Hq. rewrite show_phone_run, show_birthday_run.
  destruct (AddressBook.get (strip q) (w_book w)) as [r|] eqn:Hg; [|auto].
  apply get_In in Hg. destruct (Hall _ _ Hg) as (_ & Hnb & _). congruence.
Qed.

Lemma lookup_with_blank_not_found_witness :
  show_phone " John Smith " john_world = (Ok "Contact not found!.", john_world)
  /\ @show_birthday glibc " John Smith " john_world
     = (Ok "Contact not found!.", john_world).
Proof.
  apply (lookup_with_blank_not_found john_world glibc " John Smith ");
    [exact (proj1 john_book_sound)|reflexivity].
Defined.

(** X21. After [change] for a name the book has, [phone] for that name
    answers the new phone and nothing else. *)
Theorem change_then_phone (P : Pickle) (w : world)
    (args n p : string) (rest : list string) (r : Record_) :
  split args = n :: p :: rest ->
  PHONE_PATTERN_match p = true ->
  AddressBook.find n (w_book w) = Some r ->
  fst (show_phone n (snd (change_contact args w))) = Ok p.
Proof.
  intros Hs Hp Hf. unfold AddressBook.find in Hf.
  assert (Hn : no_blank n = true)
    by (apply (split_no_blank args); rewrite Hs; now left).
  rewrite (change_contact_valid w args n p rest Hs Hp), Hf.
  rewrite show_phone_run, (strip_no_blank n Hn). simpl.
  now rewrite get_setitem_eq.
Qed.

Lemma change_then_phone_witness :
  fst (show_phone "John" (snd (@change_contact Codec.pickle reliable_disk "John 0931234567" john_world)))
  = Ok "0931234567".
Proof.
  apply (change_then_phone Codec.pickle john_world "John 0931234567" "John"
           "0931234567" [] john); reflexivity.
Defined.

(** X22. After [add], [phone] for that name answers the phones the
    record had, in their order, and then the new one, with [", "]
    between them. *)
Theorem add_then_phone (P : Pickle) (w : world)
    (args n p : string) (rest : list string) :
  split args = n :: p :: rest ->
  PHONE_PATTERN_match p = true ->
  fst (show_phone n (snd (add_contact args w)))
  = Ok (join ", " (phones (record_or_new n (w_book w)) ++ [p])).
Proof.
  intros Hs Hp.
  assert (Hn : no_blank n = true)
    by (apply (split_no_blank args); rewrite Hs; now left).
  rewrite (add_contact_effect w args n p rest Hs Hp).
  rewrite show_phone_run, (strip_no_blank n Hn). simpl.
  now rewrite get_setitem_eq.
Qed.

Lemma add_then_phone_witness :
  fst (show_phone "John" (snd (@add_contact Codec.pickle reliable_disk "John 0931234567" john_world)))
  = Ok (join ", " (phones (record_or_new "John" (w_book john_world)) ++ ["0931234567"])).
Proof.
  apply (add_then_phone Codec.pickle john_world "John 0931234567" "John"
           "0931234567" []); reflexivity.
Defined.

(** ** More on the listing of birthdays *)

(** X23. When the day a week from today exists and every birthday of
    the book exists in this year, the listing prints, in the order of the
    book, one line for each record whose birthday, moved to this year, is
    today, a week from today or between them, and for no other record;
    when there is none it prints [No upcoming birthdays!.]. *)
Theorem listing_is_exact (L : Libc) (w : world) (next_week : date) :
  add_days 7 (w_today w) = Ok next_week ->
  forallb (replaceable (year (w_today w))) (AddressBook.values (w_book w)) = true ->
  let entries :=
    omap (this_year_entry (w_today w) next_week) (AddressBook.values (w_book w)) in
  show_upcoming_birthdays w =
    (Ok None,
     printing (match entries with
               | [] => ["No upcoming birthdays!."]
               | _ => map birthday_line entries
               end) w)
  /\ forall n d,
       In (n, d) entries <->
       exists r b,
         In r (AddressBook.values (w_book w))
         /\ birthday r = Some b /\ name r = n
         /\ date_replace_year b (year (w_today w)) = Ok d
         /\ date_leb (w_today w) d = true /\ date_leb d next_week = true.
Proof. exact (show_upcoming_exact w next_week). Qed.

Lemma listing_is_exact_witness :
  @show_upcoming_birthdays glibc week_world
  = (Ok None, printing ["Bob: 10-01-2023"] week_world)
  /\ forall n d,
       In (n, d) [("Bob", mkdate 2023 1 10)] <->
       exists r b,
         In r (AddressBook.values (w_book week_world))
         /\ birthday r = Some b /\ name r = n
         /\ date_replace_year b (year (w_today week_world)) = Ok d
         /\ date_leb (w_today week_world) d = true
         /\ date_leb d (mkdate 2023 1 12) = true.
Proof.
  exact (listing_is_exact glibc week_world (mkdate 2023 1 12) eq_refl eq_refl).
Defined.

Lemma valid_date_ranges b :
  valid_date b = true ->
  1 <= year b <= 9999 /\ 1 <= month b <= 12
  /\ 1 <= day b <= days_in_month (year b) (month b).
Proof.
  unfold valid_date, is_Ok.
  destruct (date_new (year b) (month b) (day b)) as [x|] eqn:E; [|discriminate].
  intros _. now apply date_new_Ok in E as (_ & ? & ? & ?).
Qed.

(** Moving a date of the calendar to another year fails for 29 February
    and a year that is no leap year, and for nothing else. *)
Lemma replace_year_fails_iff b y :
  valid_date b = true -> 1 <= y <= 9999 ->
  is_Ok (date_replace_year b y) = false
  <-> month b = 2 /\ day b = 29 /\ is_leap y = false.
Proof.
  intros Hb Hy. apply valid_date_ranges in Hb as (Hyb & Hm & Hd).
  unfold date_replace_year, date_new, MINYEAR, MAXYEAR.
  replace ((1 <=? y) && (y <=? 9999)) with true by lia.
  replace ((1 <=? month b) && (month b <=? 12)) with true by lia.
  cbn [negb]. revert Hd. unfold days_in_month.
  destruct (Z.eqb_spec (month b) 2) as [Hm2|Hm2].
  - destruct (is_leap (year b)), (is_leap y); intros Hd;
      destruct (Z.leb_spec (day b) 29), (Z.leb_spec (day b) 28);
      destruct (Z.leb_spec 1 (day b)); simpl; split;
      try discriminate; try lia; try (intros (_ & ? & ?); try discriminate; lia);
      try (intros _; repeat split; lia).
  - intros Hd.
    destruct ((month b =? 4) || (month b =? 6) || (month b =? 9) || (month b =? 11));
      (replace ((1 <=? day b) && (day b <=? _)) with true by lia);
      simpl; split; try discriminate; intros (? & _); contradiction.
Qed.

Lemma forallb_first_false {A} (f : A -> bool) (l : list A) :
  forallb f l = false ->
  exists l1 x l2, l = l1 ++ x :: l2 /\ forallb f l1 = true /\ f x = false.
Proof.
  induction l as [|a l IH]; simpl; [discriminate|].
  destruct (f a) eqn:Ha; simpl.
  - intros H. destruct (IH H) as (l1 & x & l2 & -> & H1 & Hx).
    exists (a :: l1), x, l2. simpl. now rewrite Ha.
  - intros _. exists [], a, l. auto.
Qed.

(** X24. With birthdays that are dates of the calendar, the listing is
    given up, printing nothing and returning the text of an error,
    exactly when this year is no leap year and some record of the book
    has its birthday on 29 February. *)
Theorem listing_given_up_iff_leap_day (L : Libc) (w : world) (next_week : date) :
  add_days 7 (w_today w) = Ok next_week ->
  1 <= year (w_today w) <= 9999 ->
  birthdays_valid (w_book w) ->
  (exists msg, show_upcoming_birthdays w = (Ok (Some msg), w))
  <-> (is_leap (year (w_today w)) = false
       /\ exists r b, In r (AddressBook.values (w_book w))
            /\ birthday r = Some b /\ month b = 2 /\ day b = 29).
Proof.
  intros Hnw Hy Hvalid. split.
  - intros (msg & H).
    destruct (forallb (replaceable (year (w_today w))) (AddressBook.values (w_book w)))
      eqn:Hall.
    + rewrite show_upcoming_run, Hnw, (upcoming_loop_ok _ _ _ _ Hall) in H.
      simpl in H. destruct (omap _ _); discriminate.
    + apply forallb_first_false in Hall as (rs1 & r & rs2 & Hv & _ & Hr).
      unfold replaceable in Hr. destruct (birthday r) as [b|] eqn:Hb; [|discriminate].
      assert (Hin : In r (AddressBook.values (w_book w)))
        by (rewrite Hv; apply in_or_app; right; now left).
      destruct (proj1 (values_In _ _) Hin) as (k & Hk).
      apply replace_year_fails_iff in Hr as (Hm & Hd & Hl);
        [|now apply (Hvalid k r Hk)|assumption].
      split; [assumption|]. exists r, b. auto.
  - intros (Hl & r & b & Hin & Hb & Hm & Hd).
    destruct (proj1 (values_In _ _) Hin) as (k & Hk).
    assert (Hr : replaceable (year (w_today w)) r = false).
    { unfold replaceable. rewrite Hb.
      apply replace_year_fails_iff; [now apply (Hvalid k r Hk)|assumption|auto]. }
    assert (Hall : forallb (replaceable (year (w_today w)))
                     (AddressBook.values (w_book w)) = false).
    { destruct (forallb _ _) eqn:E; [|reflexivity].
      rewrite forallb_forall in E. rewrite (E r Hin) in Hr. discriminate. }
    apply forallb_first_false in Hall as (rs1 & r1 & rs2 & Hv & H1 & Hr1).
    unfold replaceable in Hr1.
    destruct (birthday r1) as [b1|] eqn:Hb1; [|discriminate].
    destruct (date_replace_year b1 (year (w_today w))) as [d|e] eqn:He; [discriminate|].
    pose proof He as He'. apply date_new_raises in He' as [msg ->].
    exists msg. now apply (show_upcoming_abandoned w next_week rs1 r1 b1 msg rs2).
Qed.

Lemma listing_given_up_iff_leap_day_witness :
  (exists msg, @show_upcoming_birthdays glibc leap_world = (Ok (Some msg), leap_world))
  <-> (is_leap (year (w_today leap_world)) = false
       /\ exists r b, In r (AddressBook.values (w_book leap_world))
            /\ birthday r = Some b /\ month b = 2 /\ day b = 29).
Proof.
  apply (listing_given_up_iff_leap_day glibc leap_world (mkdate 2023 1 12));
    [reflexivity|simpl; lia|].
  intros k r [[= <- <-]|[[= <- <-]|[]]] d [= <-]; reflexivity.
Defined.

(** ** The handlers and exceptions *)

(** X27. On a disk that lets the address book file be written, no
    exception leaves [add], [change], [phone], [add-birthday] or
    [show-birthday]: whatever the text and the world, each returns a
    string. *)
Theorem handlers_never_raise (P : Pickle) (D : Disk) (L : Libc)
    (w : world) (line : string) :
  writable D default_filename ->
  (exists msg w', add_contact line w = (Ok msg, w'))
  /\ (exists msg w', change_contact line w = (Ok msg, w'))
  /\ (exists msg w', show_phone line w = (Ok msg, w'))
  /\ (exists msg w', add_birthday line w = (Ok msg, w'))
  /\ (exists msg w', show_birthday line w = (Ok msg, w')).
Proof.
  intros Hw.
  rewrite (add_contact_writable Hw), (change_contact_writable Hw),
    (add_birthday_writable Hw).
  exact (handlers_return_a_message w line).
Qed.

Lemma handlers_never_raise_witness :
  (exists msg w', @add_contact Codec.pickle reliable_disk "John 050" john_world = (Ok msg, w'))
  /\ (exists msg w',
        @change_contact Codec.pickle reliable_disk "John 050" john_world = (Ok msg, w'))
  /\ (exists msg w', show_phone "John 050" john_world = (Ok msg, w'))
  /\ (exists msg w',
        @add_birthday Codec.pickle reliable_disk "John 050" john_world = (Ok msg, w'))
  /\ (exists msg w', @show_birthday glibc "John 050" john_world = (Ok msg, w')).
Proof.
  apply (handlers_never_raise Codec.pickle reliable_disk glibc john_world "John 050").
  intros content. reflexivity.
Defined.

(** X28. For a one-word name the book does not have, [phone],
    [show-birthday], [add-birthday] (whatever the date) and [change]
    (with a valid phone) answer [Contact not found!.] and leave the
    world as it was. *)
Theorem missing_contact_answers (P : Pickle) (L : Libc) (w : world) (n p : string) :
  no_blank n = true ->
  AddressBook.find n (w_book w) = None ->
  show_phone n w = (Ok "Contact not found!.", w)
  /\ show_birthday n w = (Ok "Contact not found!.", w)
  /\ (forall line rest, split line = n :: p :: rest ->
        add_birthday line w = (Ok "Contact not found!.", w))
  /\ (forall line rest, split line = n :: p :: rest ->
        PHONE_PATTERN_match p = true ->
        change_contact line w = (Ok "Contact not found!.", w)).
Proof. exact (missing_contact_not_found w n p). Qed.

Lemma missing_contact_answers_witness :
  show_phone "Ann" john_world = (Ok "Contact not found!.", john_world)
  /\ @show_birthday glibc "Ann" john_world = (Ok "Contact not found!.", john_world)
  /\ (forall line rest, split line = "Ann" :: "0931234567" :: rest ->
        @add_birthday Codec.pickle reliable_disk line john_world = (Ok "Contact not found!.", john_world))
  /\ (forall line rest, split line = "Ann" :: "0931234567" :: rest ->
        PHONE_PATTERN_match "0931234567" = true ->
        @change_contact Codec.pickle reliable_disk line john_world
        = (Ok "Contact not found!.", john_world)).
Proof.
  apply (missing_contact_answers Codec.pickle glibc john_world "Ann" "0931234567");
    reflexivity.
Defined.

(** ** What a phone and a date look like *)

Lemma take_digits_sound n : forall s t r,
  take_digits n s = Some (t, r) ->
  s = t +:+ r /\ String.length t = n /\ all_digits t = true.
Proof.
  induction n as [|n IH]; intros s t r; simpl.
  - intros [= <- <-]. auto.
  - destruct s as [|c s]; [discriminate|].
    destruct (isdigit c) eqn:Hc; [|discriminate].
    destruct (take_digits n s) as [[t' r']|] eqn:E; [|discriminate].
    intros [= <- <-]. destruct (IH _ _ _ E) as (-> & <- & Ht).
    simpl. now rewrite Hc, Ht.
Qed.

Lemma take_digits_complete t r :
  all_digits t = true -> take_digits (String.length t) (t +:+ r) = Some (t, r).
Proof.
  induction t as [|c t IH]; simpl; [reflexivity|].
  intros H. apply andb_true_iff in H as [Hc Ht]. now rewrite Hc, (IH Ht).
Qed.

Lemma append_nil_r (s : string) : s +:+ "" = s.
Proof.
  induction s as [|c s IH]; [reflexivity|].
  change (String c s +:+ "") with (String c (s +:+ "")). now rewrite IH.
Qed.

(** X25. A word of ASCII characters is a match of [PHONE_PATTERN]
    exactly when it is ten of the digits [0-9], or a plus sign and ten of
    the digits [0-9]. The statement is kept to ASCII text, on which [\d]
    is [0-9]. *)
Theorem phone_pattern_shape (p : string) :
  ascii_only p = true ->
  no_blank p = true ->
  PHONE_PATTERN_match p = true
  <-> (String.length p = 10%nat /\ all_digits p = true)
      \/ exists body, p = String "+" body
           /\ String.length body = 10%nat /\ all_digits body = true.
Proof.
  intros _ Hnb. unfold PHONE_PATTERN_match.
  assert (Hshape : forall body,
            no_blank body = true ->
            (match take_digits 10 body with
             | Some (_, r) => String.eqb r "" || String.eqb r (String "010" "")
             | None => false
             end = true
             <-> String.length body = 10%nat /\ all_digits body = true)).
  { intros body Hb. split.
    - destruct (take_digits 10 body) as [[t r]|] eqn:E; [|discriminate].
      apply take_digits_sound in E as (-> & Hl & Ht). intros Hr.
      apply orb_true_iff in Hr as [Hr|Hr]; apply String.eqb_eq in Hr; subst r.
      + now rewrite append_nil_r.
      + rewrite no_blank_append in Hb. apply andb_true_iff in Hb as [_ Hb].
        discriminate.
    - intros [Hl Hd]. rewrite <- (append_nil_r body) at 1.
      rewrite <- Hl, (take_digits_complete body "" Hd). reflexivity. }
  destruct p as [|c p]; [rewrite (Hshape "" eq_refl); split;
                         [now left|intros [?|(b & ? & _)]; [assumption|discriminate]]|].
  destruct (Ascii.eqb_spec c "+") as [->|Hc].
  - simpl in Hnb. rewrite (Hshape p Hnb). split.
    + intros H. right. eauto.
    + intros [[_ H]|(body & [= <-] & H)]; [discriminate|assumption].
  - assert (E : match String c p with
                | String "+" r => r
                | _ => String c p
                end = String c p).
    { destruct c as [[] [] [] [] [] [] [] []]; try reflexivity. now destruct Hc. }
    rewrite E, (Hshape _ Hnb). split; [now left|].
    intros [H|(body & [= -> _] & _)]; [assumption|now destruct Hc].
Qed.

Lemma phone_pattern_shape_witness :
  PHONE_PATTERN_match "+0931234567" = true
  <-> (String.length "+0931234567" = 10%nat /\ all_digits "+0931234567" = true)
      \/ exists body, "+0931234567" = String "+" body
           /\ String.length body = 10%nat /\ all_digits body = true.
Proof. apply (phone_pattern_shape "+0931234567"); reflexivity. Defined.

(** ** Printing a date and parsing it *)

Lemma ord_digit_char k : 0 <= k <= 9 -> ord (digit_char k) = k + 48.
Proof.
  intros Hk. unfold ord, digit_char. rewrite N_ascii_embedding by lia. lia.
Qed.

Lemma isdigit_digit_char k : 0 <= k <= 9 -> isdigit (digit_char k) = true.
Proof. intros Hk. unfold isdigit. rewrite (ord_digit_char k Hk). lia. Qed.

Lemma digit_val_char k : 0 <= k <= 9 -> digit_val (digit_char k) = k.
Proof. intros Hk. unfold digit_val. rewrite (ord_digit_char k Hk). lia. Qed.

Lemma pad4_digits n :
  0 <= n <= 9999 ->
  0 <= n / 1000 <= 9 /\ 0 <= n / 100 mod 10 <= 9
  /\ 0 <= n mod 100 / 10 <= 9 /\ 0 <= (n mod 100) mod 10 <= 9.
Proof. intros Hn. repeat split; Z.div_mod_to_equations; lia. Qed.

Lemma all_digits_no_blank s : all_digits s = true -> no_blank s = true.
Proof.
  induction s as [|c s IH]; simpl; [reflexivity|].
  intros H. apply andb_true_iff in H as [Hc Hs].
  now rewrite (isdigit_not_space c Hc), (IH Hs).
Qed.

Lemma all_digits_pad2 n : 0 <= n <= 99 -> all_digits (pad2 n) = true.
Proof.
  intros Hn. unfold pad2, str2. simpl.
  rewrite !isdigit_digit_char by (Z.div_mod_to_equations; lia). reflexivity.
Qed.

Lemma all_digits_pad4 n : 0 <= n <= 9999 -> all_digits (pad4 n) = true.
Proof.
  intros Hn. destruct (pad4_digits n Hn) as (H1 & H2 & H3 & H4).
  unfold pad4, pad2, str2. simpl.
  now rewrite !isdigit_digit_char by assumption.
Qed.

Lemma int_pad2 n : 0 <= n <= 99 -> int (pad2 n) = n.
Proof.
  intros Hn. rewrite int_digits by now apply all_digits_no_blank, all_digits_pad2.
  unfold int_of_digits, pad2, str2. simpl.
  rewrite !digit_val_char by (Z.div_mod_to_equations; lia).
  Z.div_mod_to_equations. lia.
Qed.

Lemma int_pad4 n : 0 <= n <= 9999 -> int (pad4 n) = n.
Proof.
  intros Hn. destruct (pad4_digits n Hn) as (H1 & H2 & H3 & H4).
  rewrite int_digits by now apply all_digits_no_blank, all_digits_pad4.
  unfold int_of_digits, pad4, pad2, str2. simpl.
  rewrite !digit_val_char by assumption.
  clear H1 H2 H3 H4. Z.div_mod_to_equations. lia.
Qed.

(** The first text [%d] takes from a day printed with two digits is the
    two digits. *)
Lemma re_d_pad2 n r :
  1 <= n <= 31 -> exists tail, re_d (pad2 n +:+ r) = (pad2 n, r) :: tail.
Proof.
  intros Hn.
  assert (H : n = 1 \/ n = 2 \/ n = 3 \/ n = 4 \/ n = 5 \/ n = 6 \/ n = 7 \/ n = 8 \/ n = 9 \/ n = 10 \/ n = 11 \/ n = 12 \/ n = 13 \/ n = 14 \/ n = 15 \/ n = 16 \/ n = 17 \/ n = 18 \/ n = 19 \/ n = 20 \/ n = 21 \/ n = 22 \/ n = 23 \/ n = 24 \/ n = 25 \/ n = 26 \/ n = 27 \/ n = 28 \/ n = 29 \/ n = 30 \/ n = 31) by lia.
  repeat (destruct H as [->|H]; [eexists; reflexivity|]).
  subst n. eexists. reflexivity.
Qed.

Lemma re_m_pad2 n r :
  1 <= n <= 12 -> exists tail, re_m (pad2 n +:+ r) = (pad2 n, r) :: tail.
Proof.
  intros Hn.
  assert (H : n = 1 \/ n = 2 \/ n = 3 \/ n = 4 \/ n = 5 \/ n = 6 \/ n = 7 \/ n = 8 \/ n = 9 \/ n = 10 \/ n = 11 \/ n = 12) by lia.
  repeat (destruct H as [->|H]; [eexists; reflexivity|]).
  subst n. eexists. reflexivity.
Qed.

Lemma re_Y_pad4 n : 0 <= n <= 9999 -> re_Y (pad4 n) = [(pad4 n, "")].
Proof.
  intros Hn. unfold re_Y.
  pose proof (take_digits_complete (pad4 n) "" (all_digits_pad4 n Hn)) as H.
  rewrite append_nil_r in H. change (String.length (pad4 n)) with 4%nat in H.
  now rewrite H.
Qed.

Lemma bind_head {A B} (f : A -> list B) (x : A) (l : list A) (y : B) (ys : list B) :
  f x = y :: ys -> exists tl, (x :: l) ≫= f = y :: tl.
Proof. intros H. simpl. rewrite H. eexists. reflexivity. Qed.

Lemma re_dmY_printed d m y :
  1 <= d <= 31 -> 1 <= m <= 12 -> 0 <= y <= 9999 ->
  exists tail,
    re_dmY (pad2 d +:+ "-" +:+ pad2 m +:+ "-" +:+ pad4 y)
    = (pad2 d, pad2 m, pad4 y, "") :: tail.
Proof.
  intros Hd Hm Hy. unfold re_dmY.
  destruct (re_d_pad2 d ("-" +:+ pad2 m +:+ "-" +:+ pad4 y) Hd) as [t1 ->].
  destruct (re_m_pad2 m ("-" +:+ pad4 y) Hm) as [t2 H2].
  assert (Hinner :
    (re_lit "-" ("-" +:+ pad2 m +:+ "-" +:+ pad4 y) ≫= fun r2 =>
       re_m r2 ≫= fun '(m0, r3) =>
         re_lit "-" r3 ≫= fun r4 =>
           re_Y r4 ≫= fun '(y0, r5) => [(pad2 d, m0, y0, r5)])
    = (pad2 d, pad2 m, pad4 y, "")
      :: (t2 ≫= fun '(m0, r3) =>
            re_lit "-" r3 ≫= fun r4 =>
              re_Y r4 ≫= fun '(y0, r5) => [(pad2 d, m0, y0, r5)])).
  { change (re_lit "-" ("-" +:+ pad2 m +:+ "-" +:+ pad4 y))
      with [pad2 m +:+ "-" +:+ pad4 y].
    cbn [mbind list_bind]. rewrite H2. cbn [mbind list_bind].
    change (re_lit "-" ("-" +:+ pad4 y)) with [pad4 y].
    cbn [mbind list_bind]. rewrite (re_Y_pad4 y Hy). cbn [mbind list_bind].
    rewrite !List.app_nil_r. reflexivity. }
  apply bind_head with (ys := (t2 ≫= fun '(m0, r3) =>
            re_lit "-" r3 ≫= fun r4 =>
              re_Y r4 ≫= fun '(y0, r5) => [(pad2 d, m0, y0, r5)])).
  exact Hinner.
Qed.

(** X26. A date of the calendar whose year is printed with four
    digits, printed by [strftime] and parsed by [strptime], is the same
    date: what [show-birthday] shows can be given to [add-birthday]. *)
Theorem strftime_then_strptime (L : Libc) (d : date) :
  valid_date d = true ->
  pads_year = true \/ 1000 <= year d ->
  strptime (strftime d) = Ok d
  /\ Birthday (strftime d) = Ok d.
Proof.
  intros Hv Hy. pose proof Hv as Hr. apply valid_date_ranges in Hr as (Hyr & Hm & Hd).
  pose proof (days_in_month_le (year d) (month d)) as Hdim.
  assert (E : strptime (strftime d) = Ok d).
  { rewrite strftime_unfold. unfold strftime_Y.
    assert (pads_year || (1000 <=? year d) = true) as ->
      by (destruct Hy as [->|Hy]; [reflexivity|apply orb_true_iff; right; lia]).
    unfold strptime.
    destruct (re_dmY_printed (day d) (month d) (year d)) as [tail ->]; try lia.
    simpl negb. cbv iota.
    rewrite !int_pad2, int_pad4 by lia.
    unfold valid_date, is_Ok in Hv.
    destruct (date_new (year d) (month d) (day d)) as [x|] eqn:Ex; [|discriminate].
    apply date_new_Ok in Ex as (-> & _). now destruct d. }
  split; [exact E|]. unfold Birthday. now rewrite E.
Qed.

Lemma strftime_then_strptime_witness :
  strptime (@strftime glibc (mkdate 2024 2 29)) = Ok (mkdate 2024 2 29)
  /\ Birthday (@strftime glibc (mkdate 2024 2 29)) = Ok (mkdate 2024 2 29).
Proof.
  apply (strftime_then_strptime glibc (mkdate 2024 2 29)); [reflexivity|].
  right. simpl. lia.
Defined.

(** ** Examples *)

(** On a full disk [add] changes the book, the write empties the file
    and fails, the [OSError] leaves the handler, and the next start finds
    a file that [pickle] cannot read. *)
Example write_interrupted :
  exists w',
    @add_contact Codec.pickle full_disk "Bob 0502223344" empty_world
      = (Raise (OSError "[Errno 28] No space left on device"), w')
    /\ AddressBook.find "Bob" (w_book w')
       = Some {| name := "Bob"; phones := ["0502223344"]; birthday := None |}
    /\ w_fs w' !! default_filename = Some []
    /\ fst (@load_data Codec.pickle full_disk default_filename w') = Raise EOFError.
Proof. eexists. repeat split; reflexivity. Qed.

Example phone_ten_digits : PHONE_PATTERN_match "0501234567" = true.
Proof. reflexivity. Qed.

Example phone_plus : PHONE_PATTERN_match "+0501234567" = true.
Proof. reflexivity. Qed.

Example phone_five_digits : PHONE_PATTERN_match "12345" = false.
Proof. reflexivity. Qed.

Example phone_twelve_digits : PHONE_PATTERN_match "050123456789" = false.
Proof. reflexivity. Qed.

Example phone_letter : PHONE_PATTERN_match "05012x4567" = false.
Proof. reflexivity. Qed.

Example split_line : split "  John   0501234567 x " = ["John"; "0501234567"; "x"].
Proof. reflexivity. Qed.

Example strip_line : strip "  John Smith  " = "John Smith".
Proof. reflexivity. Qed.

Example split_max1_line :
  split_max1 "add  John 0501234567 " = ["add"; "John 0501234567 "].
Proof. reflexivity. Qed.

Example strptime_leap : strptime "29-02-2024" = Ok (mkdate 2024 2 29).
Proof. reflexivity. Qed.

Example strptime_no_leap :
  strptime "29-02-2023" = Raise (ValueError "day is out of range for month").
Proof. reflexivity. Qed.

Example strptime_long_year :
  strptime "01-01-20005" = Raise (ValueError "unconverted data remains: 5").
Proof. reflexivity. Qed.

Example Birthday_words :
  Birthday "tomorrow" = Raise (ValueError "Invalid date format. Use DD-MM-YYYY").
Proof. reflexivity. Qed.

Example next_week_over_new_year : add_days 7 (mkdate 2024 12 28) = Ok (mkdate 2025 1 4).
Proof. reflexivity. Qed.

Example next_week_over_february : add_days 7 (mkdate 2023 2 25) = Ok (mkdate 2023 3 4).
Proof. reflexivity. Qed.

(** A session: two contacts, a birthday, and the listing five days
    before it. *)
Example session :
  let run line w := snd (@main_step Codec.pickle reliable_disk glibc line w) in
  let w1 := run "add Bob 0502223344" empty_world in
  let w2 := run "add-birthday Bob 10-01-1990" w1 in
  let w3 := run "birthdays" w2 in
  w_out w3 = ["Contact added."; "Birthday added!."; "Bob: 10-01-2023"]
  /\ @load_data Codec.pickle reliable_disk default_filename w3 = (Ok (w_book w3), w3).
Proof. split; reflexivity. Qed.
